(** * Girls' empowerment M&E decision tool: semantic filtering and CSV ingestion

    A shallow embedding of
    - the semantic validation snippets of SEMANTIC_FILTERING_RECOMMENDATIONS.md
      ([isSemanticMismatch], its use inside [groupMethodsByFit], and the
      Phase 2 inline check), and
    - the converter csv-to-json.js,
    followed by the properties of both.

    JavaScript objects used as dictionaries are finite maps ([gmap]) from
    property names to values; arrays are lists; a JavaScript string is a
    sequence of UTF-16 code units, of which the model keeps those below
    U+0100, one per [ascii]. *)

From Stdlib Require Import QArith Ascii String.
From stdpp Require Import gmap strings list fin_maps.

Local Open Scope string_scope.

(** ** JavaScript array helpers *)

(** [arr.includes(x)] on an array of strings. *)
Definition includes (arr : list string) (x : string) : bool :=
  existsb (String.eqb x) arr.

(** [arr.some(p)]. *)
Definition some {A : Type} (p : A → bool) (arr : list A) : bool :=
  existsb p arr.

(** [arr.push(x)]. *)
Definition push {A : Type} (arr : list A) (x : A) : list A := arr ++ [x].

(** ** Data model *)

(** A method record as written by csv-to-json.js and read by the filter. *)
Record Method := mkMethod {
  name : string;
  description : string;
  attributes : gmap string (list string);
  link : option string;
  link2 : option string;
  costTier : option string;
  connectivity : option string;
  type : option string
}.

(** [state.userSelections]: category id -> chosen values. *)
Abbreviation UserSelections := (gmap string (list string)).

(** ** The semantic validator (Option 1) *)

Module Semantic.

(** Rule 1: SEM level hard blocks.  The guard [if (userSelections.sem_level)]
    tests the truthiness of the property: an absent key is [undefined]
    (falsy), every array, the empty one included, is truthy. *)
Definition semLevelMismatch (method : Method) (userSelections : UserSelections) : bool :=
  match userSelections !! "sem_level" with
  | Some userSemLevels =>
      let methodSemLevels := default [] (attributes method !! "sem_level") in
      let hasOverlap := some (fun level => includes methodSemLevels level) userSemLevels in
      negb hasOverlap && (0 <? length methodSemLevels)%nat
  | None => false
  end.

Definition digitalMethods : list string :=
  [ "Quantitative Surveys (Digital/Online)";
    "Digital Diaries/Journals";
    "Participatory Video/Digital Storytelling";
    "Real-Time Polling (U-Report)";
    "Social Listening/Digital Traces" ].

(** The technology-access selection read by rule 2. *)
Definition userTech (userSelections : UserSelections) : list string :=
  default [] (userSelections !! "participants_access_to_technology_eg_phones_internet").

(** Rule 2: digital methods require at least Medium tech. *)
Definition digitalMismatch (method : Method) (userSelections : UserSelections) : bool :=
  if includes digitalMethods (name method) then
    includes (userTech userSelections) "Low" && (length (userTech userSelections) =? 1)%nat
  else false.

Definition visibilityMethods : list string :=
  [ "Photovoice"; "Participatory Video/Digital Storytelling" ].

(** The cultural-restrictiveness selection read by rule 3. *)
Definition userCultural (userSelections : UserSelections) : list string :=
  default [] (userSelections !! "level_of_cultural_restrictiveness").

(** Rule 3: visibility methods cannot work in High cultural restrictiveness. *)
Definition visibilityMismatch (method : Method) (userSelections : UserSelections) : bool :=
  if includes visibilityMethods (name method) then
    includes (userCultural userSelections) "High" && (length (userCultural userSelections) =? 1)%nat
  else false.

(** [isSemanticMismatch(method, userSelections)]: the three rules in source
    order, each returning [true] as soon as it fires. *)
Definition isSemanticMismatch (method : Method) (userSelections : UserSelections) : bool :=
  if semLevelMismatch method userSelections then true
  else if digitalMismatch method userSelections then true
  else if visibilityMismatch method userSelections then true
  else false.

(** ** The Phase 2 inline check of [groupMethodsByFit]

    [true] stands for reaching [continue].  [userFilterSelections] is
    computed by code outside the snippet and is taken as an argument. *)
Definition phase2SemLevelSkip (userFilterSelections : list string)
    (method : Method) (userSelections : UserSelections) : bool :=
  if includes userFilterSelections "sem_level" then
    let methodSemLevels := default [] (attributes method !! "sem_level") in
    let userSemLevels := default [] (userSelections !! "sem_level") in
    if (0 <? length userSemLevels)%nat && (0 <? length methodSemLevels)%nat then
      let hasOverlap := some (fun level => includes methodSemLevels level) userSemLevels in
      negb hasOverlap
    else false
  else false.

End Semantic.

(** ** Tier classification: [groupMethodsByFit] *)

Module Tiers.
Import Semantic.

(** Modelled from the spec: the filtered categories of section 4.1, those
    whose selection is non-empty.  The score is computed inside
    [groupMethodsByFit] before the snippet starts, by code that is not part of
    the document.  The keys of the selection are taken to be ids of known
    categories, as section 6 asks of a request: the list of known ids is no
    input here, so a key outside it would count as a filtered category. *)
Definition filteredCategories (userSelections : UserSelections) : list (string * list string) :=
  filter (fun kv => (0 <? length kv.2)%nat = true) (map_to_list userSelections).

(** Modelled from the spec: a method matches a filtered category when it
    declares nothing for it or shares a value with the selection (section 4.1,
    step 2). *)
Definition matchesCategory (method : Method) (kv : string * list string) : bool :=
  match attributes method !! kv.1 with
  | None => true
  | Some values => some (fun v => includes values v) kv.2
  end.

(** Modelled from the spec: the number of filtered categories the method
    matches. *)
Definition matchedCount (method : Method) (userSelections : UserSelections) : nat :=
  length (filter (fun kv => matchesCategory method kv = true) (filteredCategories userSelections)).

(** Modelled from the spec: the number of filtered categories. *)
Definition filteredCount (userSelections : UserSelections) : nat :=
  length (filteredCategories userSelections).

(** Modelled from the spec: the match percentage (section 4.1, step 3), on the
    0..100 scale the snippet compares against and as an exact rational; with
    no filtered category it is 100. *)
Definition score (method : Method) (userSelections : UserSelections) : Q :=
  match filteredCount userSelections with
  | O => 100
  | S _ => (100 * Z.of_nat (matchedCount method userSelections))
             # Pos.of_nat (filteredCount userSelections)
  end.

(** The entry pushed into a tier. *)
Record MethodData := mkMethodData {
  method : Method;
  matchPercentage : Q
}.

(** The [groups] accumulator.  [excluded] is the fourth bucket of the spec's
    contract (section 4.3); no statement of the source pushes to it. *)
Record Groups := mkGroups {
  bestFit : list MethodData;
  goodAlternatives : list MethodData;
  stretchOptions : list MethodData;
  excluded : list MethodData
}.

Definition emptyGroups : Groups := mkGroups [] [] [] [].

(** Modelled from the spec: the branches the snippet elides as "...etc"
    (section 4.3, step 3): a score above 0 that reached neither earlier branch
    goes to [stretchOptions], a score of 0 is listed nowhere. *)
Definition remainingTiers (groups : Groups) (methodData : MethodData) : Groups :=
  if negb (Qle_bool (matchPercentage methodData) 0) then
    mkGroups (bestFit groups) (goodAlternatives groups)
             (push (stretchOptions groups) methodData) (excluded groups)
  else groups.

(** One iteration of the loop over the catalog, as the snippet has it:
    [continue] on a semantic mismatch, then [=== 100], then [>= 80], then the
    elided rest. *)
Definition groupStep (userSelections : UserSelections) (groups : Groups) (m : Method) : Groups :=
  let matchPercentage := score m userSelections in
  let methodData := mkMethodData m matchPercentage in
  if isSemanticMismatch m userSelections then groups
  else if Qeq_bool matchPercentage 100 then
    mkGroups (push (bestFit groups) methodData) (goodAlternatives groups)
             (stretchOptions groups) (excluded groups)
  else if Qle_bool 80 matchPercentage then
    mkGroups (bestFit groups) (push (goodAlternatives groups) methodData)
             (stretchOptions groups) (excluded groups)
  else remainingTiers groups methodData.

(** The loop of [groupMethodsByFit] over the catalog. *)
Definition groupMethodsByFit (methods : list Method) (userSelections : UserSelections) : Groups :=
  fold_left (groupStep userSelections) methods emptyGroups.

End Tiers.

(** ** JavaScript strings *)

Module JsString.

(** [WhiteSpace] and [LineTerminator] code units below U+0100: TAB, LF, VT,
    FF, CR, SPACE and NO-BREAK SPACE.  This is the set stripped by [trim] and
    matched by the regular-expression class [\s]. *)
Definition isWhiteSpace (c : ascii) : bool :=
  let n := nat_of_ascii c in
  ((9 <=? n) && (n <=? 13) || (n =? 32) || (n =? 160))%nat.

(** The code units the regular-expression [.] refuses: LF and CR. *)
Definition isLineTerminator (c : ascii) : bool :=
  let n := nat_of_ascii c in ((n =? 10) || (n =? 13))%nat.

(** [toLowerCase] on one code unit: A-Z and the Latin-1 capitals
    U+00C0..U+00DE (U+00D7, the multiplication sign, excepted). *)
Definition lowerChar (c : ascii) : ascii :=
  let n := nat_of_ascii c in
  if ((65 <=? n) && (n <=? 90) || (192 <=? n) && (n <=? 222) && negb (n =? 215))%nat
  then ascii_of_nat (n + 32) else c.

Fixpoint toLowerCase (s : string) : string :=
  match s with
  | EmptyString => EmptyString
  | String c s' => String (lowerChar c) (toLowerCase s')
  end.

Fixpoint trimStart (s : string) : string :=
  match s with
  | EmptyString => EmptyString
  | String c s' => if isWhiteSpace c then trimStart s' else s
  end.

Fixpoint trimEnd (s : string) : string :=
  match s with
  | EmptyString => EmptyString
  | String c s' =>
      match trimEnd s' with
      | EmptyString => if isWhiteSpace c then EmptyString else String c EmptyString
      | t => String c t
      end
  end.

(** [s.trim()]. *)
Definition trim (s : string) : string := trimEnd (trimStart s).

(** [s.split(sep)] for a one-character separator. *)
Fixpoint split (sep : ascii) (s : string) : list string :=
  match s with
  | EmptyString => [EmptyString]
  | String c s' =>
      if Ascii.eqb c sep then EmptyString :: split sep s'
      else match split sep s' with
           | piece :: pieces => String c piece :: pieces
           | [] => [String c EmptyString]
           end
  end.

(** [s.startsWith(p)]. *)
Fixpoint startsWith (s p : string) : bool :=
  match p, s with
  | EmptyString, _ => true
  | String _ _, EmptyString => false
  | String a p', String b s' => Ascii.eqb a b && startsWith s' p'
  end.

(** [s.includes(sub)]. *)
Fixpoint strIncludes (s sub : string) : bool :=
  startsWith s sub ||
  match s with
  | EmptyString => false
  | String _ s' => strIncludes s' sub
  end.

(** [s.replace(/\s+/g, '_')]: every maximal run of white space becomes one
    underscore.  [inRun] records that the previous code unit was white
    space. *)
Fixpoint replaceSpaceRuns (inRun : bool) (s : string) : string :=
  match s with
  | EmptyString => EmptyString
  | String c s' =>
      if isWhiteSpace c then
        (if inRun then replaceSpaceRuns true s'
         else String "_"%char (replaceSpaceRuns true s'))
      else String c (replaceSpaceRuns false s')
  end.

(** The class [a-z0-9_]. *)
Definition isIdChar (c : ascii) : bool :=
  let n := nat_of_ascii c in
  ((97 <=? n) && (n <=? 122) || (48 <=? n) && (n <=? 57) || (n =? 95))%nat.

(** [s.replace(/[^a-z0-9_]/g, '')]. *)
Fixpoint keepIdChars (s : string) : string :=
  match s with
  | EmptyString => EmptyString
  | String c s' => if isIdChar c then String c (keepIdChars s') else keepIdChars s'
  end.

(** No line terminator in [s]: [s] can be matched by a run of [.]. *)
Fixpoint allDots (s : string) : bool :=
  match s with
  | EmptyString => true
  | String c s' => negb (isLineTerminator c) && allDots s'
  end.

(** [\s*(.+)$] on [s], returning the second group.  The greedy [\s*] first
    tries to take one more white-space unit and gives it back when the rest
    cannot be matched. *)
Fixpoint matchOptionGroup (s : string) : option string :=
  match s with
  | EmptyString => None
  | String c s' =>
      if isWhiteSpace c then
        match matchOptionGroup s' with
        | Some g => Some g
        | None => if allDots s then Some s else None
        end
      else if allDots s then Some s else None
  end.

(** [\s*-\s*(.+)$] on [s]: the white-space run must be followed by the dash,
    and no shorter run can be, a white-space unit not being a dash. *)
Fixpoint matchDashRest (s : string) : option string :=
  match s with
  | EmptyString => None
  | String c s' =>
      if Ascii.eqb c "-"%char then matchOptionGroup s'
      else if isWhiteSpace c then matchDashRest s'
      else None
  end.

(** The lazy first group: [prefix] has been taken by [(.+?)]; try the rest of
    the pattern here, and extend the group by one unit only when that fails. *)
Fixpoint matchAfterPrefix (prefix s : string) : option (string * string) :=
  match matchDashRest s with
  | Some g2 => Some (prefix, g2)
  | None =>
      match s with
      | EmptyString => None
      | String c s' =>
          if isLineTerminator c then None
          else matchAfterPrefix (prefix +:+ String c EmptyString) s'
      end
  end.

(** [header.match(/^(.+?)\s*-\s*(.+)$/)]: the two captured groups, or [None]
    for [null]. *)
Definition matchHeader (header : string) : option (string * string) :=
  match header with
  | EmptyString => None
  | String c s' =>
      if isLineTerminator c then None
      else matchAfterPrefix (String c EmptyString) s'
  end.

End JsString.

(** ** JavaScript objects used as dictionaries *)

Module JsObject.

(** The property names every object literal [{}] inherits from
    [Object.prototype]. *)
Definition objectPrototypeKeys : list string :=
  [ "constructor"; "__defineGetter__"; "__defineSetter__"; "hasOwnProperty";
    "__lookupGetter__"; "__lookupSetter__"; "isPrototypeOf";
    "propertyIsEnumerable"; "toString"; "valueOf"; "__proto__";
    "toLocaleString" ].

(** The outcome of reading [obj[key]] on an object literal whose own
    properties are [obj]: an own property, a property inherited from
    [Object.prototype] (a truthy value that is none of the dictionary's), or
    [undefined]. *)
Inductive property (A : Type) : Type :=
  | Own (a : A)
  | Inherited
  | Undefined.
Arguments Own {A} a.
Arguments Inherited {A}.
Arguments Undefined {A}.

Definition getProperty {A : Type} (obj : gmap string A) (key : string) : property A :=
  match obj !! key with
  | Some a => Own a
  | None => if includes objectPrototypeKeys key then Inherited else Undefined
  end.

End JsObject.

(** ** csv-to-json.js *)

(** A category object of the output: [{ id, name, options }]. *)
Module Category.
Record t := mk {
  id : string;
  name : string;
  options : list string
}.
End Category.

(** The outcome of running a piece of the script: it completes with a value,
    or a [TypeError] is thrown and the script stops without writing output. *)
Inductive result (A : Type) : Type :=
  | Return (a : A)
  | TypeError.
Arguments Return {A} a.
Arguments TypeError {A}.

#[global] Instance result_bind : MBind result := fun A B k r =>
  match r with
  | Return a => k a
  | TypeError => TypeError
  end.

(** A [for] loop whose body may throw. *)
Fixpoint forEach {S A : Type} (body : S → A → result S) (items : list A) (s : S) : result S :=
  match items with
  | [] => Return s
  | item :: rest => s' ← body s item; forEach body rest s'
  end.

Module Csv.
Import JsString JsObject.

(** [headerLower === 'link' || headerLower === 'url' || headerLower === 'reference']. *)
Definition isLinkHeader (headerLower : string) : bool :=
  String.eqb headerLower "link" || String.eqb headerLower "url"
  || String.eqb headerLower "reference".

(** [categoryName.toLowerCase().replace(/\s+/g, '_').replace(/[^a-z0-9_]/g, '')]. *)
Definition categoryIdOf (categoryName : string) : string :=
  keepIdChars (replaceSpaceRuns false (toLowerCase categoryName)).

(** *** Headers: categories and their options

    [categories] and [categoryMap] hold references to the same category
    objects, and the options are pushed through [categoryMap]: the objects
    live in a store, addressed by their allocation index. *)
Record HeaderState := mkHeaderState {
  objects : list Category.t;
  categories : list nat;
  categoryMap : gmap string nat
}.

Definition initialHeaderState : HeaderState := mkHeaderState [] [] ∅.

(** [categoryMap[categoryId] = { id, name, options: [] };
     categories.push(categoryMap[categoryId])]. *)
Definition createCategory (st : HeaderState) (categoryId categoryName : string) : HeaderState :=
  let address := length (objects st) in
  mkHeaderState (push (objects st) (Category.mk categoryId categoryName []))
                (push (categories st) address)
                (<[categoryId := address]> (categoryMap st)).

(** [object.options.push(optionName)] on the object at [address]. *)
Definition pushOption (st : HeaderState) (address : nat) (optionName : string) : HeaderState :=
  mkHeaderState
    (alter (fun c => Category.mk (Category.id c) (Category.name c)
                                 (push (Category.options c) optionName))
           address (objects st))
    (categories st) (categoryMap st).

(** The body of the loop over [headers], for [headers[i]]. *)
Definition processHeader (st : HeaderState) (header : string) : result HeaderState :=
  let headerLower := trim (toLowerCase header) in
  if isLinkHeader headerLower then Return st
  else
    match matchHeader header with
    | Some (group1, group2) =>
        let categoryName := trim group1 in
        let optionName := trim group2 in
        let categoryId := categoryIdOf categoryName in
        (* if (!categoryMap[categoryId]) { ... } *)
        let st1 :=
          match getProperty (categoryMap st) categoryId with
          | Undefined => createCategory st categoryId categoryName
          | _ => st
          end in
        (* if (!categoryMap[categoryId].options.includes(optionName)) { ... } *)
        match getProperty (categoryMap st1) categoryId with
        | Own address =>
            match objects st1 !! address with
            | Some category =>
                if includes (Category.options category) optionName then Return st1
                else Return (pushOption st1 address optionName)
            | None => TypeError
            end
        | Inherited => TypeError (* [.options] of an inherited value is undefined *)
        | Undefined => TypeError
        end
    | None => Return st
    end.

(** The [categories] array as serialised: each reference resolved. *)
Definition resolveCategories (st : HeaderState) : list Category.t :=
  omap (fun address => objects st !! address) (categories st).

(** *** Rows: methods *)

Definition withLink (m : Method) (v : string) : Method :=
  mkMethod (name m) (description m) (attributes m) (Some v) (link2 m)
           (costTier m) (connectivity m) (type m).
Definition withLink2 (m : Method) (v : string) : Method :=
  mkMethod (name m) (description m) (attributes m) (link m) (Some v)
           (costTier m) (connectivity m) (type m).
Definition withCostTier (m : Method) (v : string) : Method :=
  mkMethod (name m) (description m) (attributes m) (link m) (link2 m)
           (Some v) (connectivity m) (type m).
Definition withConnectivity (m : Method) (v : string) : Method :=
  mkMethod (name m) (description m) (attributes m) (link m) (link2 m)
           (costTier m) (Some v) (type m).
Definition withType (m : Method) (v : string) : Method :=
  mkMethod (name m) (description m) (attributes m) (link m) (link2 m)
           (costTier m) (connectivity m) (Some v).
Definition withDescription (m : Method) (v : string) : Method :=
  mkMethod (name m) v (attributes m) (link m) (link2 m)
           (costTier m) (connectivity m) (type m).
Definition withAttributes (m : Method) (a : gmap string (list string)) : Method :=
  mkMethod (name m) (description m) a (link m) (link2 m)
           (costTier m) (connectivity m) (type m).

(** The URL written for a link cell, [None] when nothing is assigned. *)
Definition normalizeLink (value : string) : option string :=
  if negb (String.eqb value "") && negb (String.eqb value "null")
     && negb (String.eqb (trim value) "") then
    if startsWith value "http://" || startsWith value "https://"
       || startsWith value "www." then
      Some (if startsWith value "www." then "https://" +:+ value else value)
    else if strIncludes value "." && negb (strIncludes value " ") then
      Some ("https://" +:+ value)
    else None
  else None.

(** [if (value && value !== 'null')]. *)
Definition isPresent (value : string) : bool :=
  negb (String.eqb value "") && negb (String.eqb value "null").

Definition truthyValues : list string :=
  [ "true"; "yes"; "1"; "x"; "TRUE"; "YES"; "X"; "True"; "Yes" ].

(** The category-option branch of the column loop. *)
Definition processAttribute (method : Method) (header value : string) : result Method :=
  match matchHeader header with
  | Some (group1, group2) =>
      let categoryName := trim group1 in
      let optionName := trim group2 in
      let categoryId := categoryIdOf categoryName in
      (* if (!method.attributes[categoryId]) method.attributes[categoryId] = [] *)
      let attributes1 :=
        match getProperty (attributes method) categoryId with
        | Undefined => <[categoryId := []]> (attributes method)
        | _ => attributes method
        end in
      if includes truthyValues value then
        match getProperty attributes1 categoryId with
        | Own values =>
            if includes values optionName then Return (withAttributes method attributes1)
            else Return (withAttributes method
                           (<[categoryId := push values optionName]> attributes1))
        | Inherited => TypeError (* [.includes] of an inherited value is not a function *)
        | Undefined => TypeError
        end
      else Return (withAttributes method attributes1)
  | None => Return method
  end.

(** The body of the column loop for [headers[j]] and [values[j]]. *)
Definition processCell (method : Method) (column : string * string) : result Method :=
  let header := column.1 in
  let value := trim column.2 in
  if String.eqb value "" then Return method
  else
    let headerLower := trim (toLowerCase header) in
    if isLinkHeader headerLower then
      Return (match normalizeLink value with
              | Some url => withLink method url
              | None => method
              end)
    else if String.eqb headerLower "link2" then
      Return (match normalizeLink value with
              | Some url => withLink2 method url
              | None => method
              end)
    else if String.eqb headerLower "cost tier" then
      Return (if isPresent value then withCostTier method value else method)
    else if String.eqb headerLower "connectivity" then
      Return (if isPresent value then withConnectivity method value else method)
    else if String.eqb headerLower "type" then
      Return (if isPresent value then withType method value else method)
    else if String.eqb headerLower "description" then
      Return (if isPresent value && negb (String.eqb (trim value) "")
              then withDescription method value else method)
    else processAttribute method header value.

Definition defaultDescription (methodName : string) : string :=
  methodName +:+ " methodology for adolescent girl empowerment research".

(** The body of the loop over the data lines: the method of one line is
    pushed to [methods], unless its name is empty. *)
Definition processRow (headers : list string) (methods : list Method) (line : string)
    : result (list Method) :=
  match split ";"%char line with
  | [] => TypeError
  | value0 :: values =>
      let methodName := trim value0 in
      if String.eqb methodName "" then Return methods
      else
        let method := mkMethod methodName "" ∅ None None None None None in
        (* j = 1 .. while j < values.length && j < headers.length *)
        method ← forEach processCell (zip (tail headers) values) method;
        let method :=
          if String.eqb (description method) "" || String.eqb (trim (description method)) ""
          then withDescription method (defaultDescription methodName)
          else method in
        Return (push methods method)
  end.

(** [jsonData]: what is serialised to the output file. *)
Record Catalog := mkCatalog {
  catalogCategories : list Category.t;
  catalogMethods : list Method
}.

(** The [readFile] callback on the file contents [data]. *)
Definition convert (data : string) : result Catalog :=
  let lines := List.filter (fun line => negb (String.eqb line ""))
                 (map trim (split "010"%char data)) in
  match lines with
  | [] => TypeError (* [lines[0]] is undefined *)
  | line0 :: rows =>
      let headers := split ";"%char line0 in
      st ← forEach processHeader (tail headers) initialHeaderState;
      methods ← forEach (processRow headers) rows [];
      Return (mkCatalog (resolveCategories st) methods)
  end.

End Csv.

(** ** Reading the tiers *)

Module TierSpec.
Import Semantic Tiers.

(** The three suggestion tiers. *)
Inductive tier := BestFit | GoodAlternatives | StretchOptions.

#[global] Instance tier_eq_dec : EqDecision tier.
Proof. solve_decision. Defined.

Definition bucket (t : tier) (groups : Groups) : list MethodData :=
  match t with
  | BestFit => bestFit groups
  | GoodAlternatives => goodAlternatives groups
  | StretchOptions => stretchOptions groups
  end.

(** The branch [groupStep] takes for a method: the tier it pushes to, or
    [None] when the method is pushed nowhere. *)
Definition placement (userSelections : UserSelections) (m : Method) : option tier :=
  if isSemanticMismatch m userSelections then None
  else if Qeq_bool (score m userSelections) 100 then Some BestFit
  else if Qle_bool 80 (score m userSelections) then Some GoodAlternatives
  else if negb (Qle_bool (score m userSelections) 0) then Some StretchOptions
  else None.

(** The method [m] has an entry in the bucket [entries]. *)
Definition listedIn (entries : list MethodData) (m : Method) : Prop :=
  ∃ methodData, In methodData entries ∧ method methodData = m.

End TierSpec.

(** ** Invariants of the conversion *)

Module CsvSpec.
Import JsString JsObject Csv.

(** The string is empty or starts with a unit that is not white space. *)
Definition headTrimmed (s : string) : Prop :=
  match s with
  | EmptyString => True
  | String c _ => isWhiteSpace c = false
  end.

(** The header loop keeps the array, the dictionary and the store in step:
    the array lists every allocated object once, in allocation order; the
    dictionary maps each object's id to that object and nothing else; no
    object repeats an option. *)
Record headerInv (st : HeaderState) : Prop := mkHeaderInv {
  inv_categories : categories st = seq 0 (length (objects st));
  inv_map_object : ∀ k address, categoryMap st !! k = Some address →
      ∃ c, objects st !! address = Some c ∧ Category.id c = k;
  inv_object_map : ∀ address c, objects st !! address = Some c →
      categoryMap st !! Category.id c = Some address;
  inv_options : ∀ address c, objects st !! address = Some c →
      NoDup (Category.options c)
}.

(** The category [categoryId] is registered in [st] and offers [optionName]. *)
Definition offers (st : HeaderState) (categoryId optionName : string) : Prop :=
  ∃ address c, categoryMap st !! categoryId = Some address
    ∧ objects st !! address = Some c ∧ optionName ∈ Category.options c.

(** No attribute of the method repeats a value. *)
Definition attributesNoDup (m : Method) : Prop :=
  ∀ categoryId values, attributes m !! categoryId = Some values → NoDup values.

(** A header that cannot make the script throw: when it is a category header,
    the id it derives is not the name of a property every object inherits. *)
Definition safeHeader (header : string) : Prop :=
  isLinkHeader (trim (toLowerCase header)) = false →
  ∀ group1 group2, matchHeader header = Some (group1, group2) →
    includes objectPrototypeKeys (categoryIdOf (trim group1)) = false.

End CsvSpec.

(** ** Sample data used by the examples below *)

Module Samples.

Definition method_of (methodName : string) (attrs : gmap string (list string)) : Method :=
  mkMethod methodName "" attrs None None None None None.

Definition administrativeData : Method :=
  method_of "Administrative Data" {[ "sem_level" := ["Institutional"] ]}.

Definition interviews : Method :=
  method_of "One-on-One Interviews" {[ "sem_level" := ["Individual"] ]}.

Definition participatoryVideo : Method :=
  method_of "Participatory Video/Digital Storytelling"
    {[ "participants_access_to_technology_eg_phones_internet" := ["Low"; "High"] ]}.

Definition photovoice : Method :=
  method_of "Photovoice" {[ "level_of_cultural_restrictiveness" := ["High"; "Low"] ]}.

Definition onlyIndividual : UserSelections := {[ "sem_level" := ["Individual"] ]}.

Definition noLevelChosen : UserSelections := {[ "sem_level" := [] ]}.

Definition onlyLowTech : UserSelections :=
  {[ "participants_access_to_technology_eg_phones_internet" := ["Low"] ]}.

Definition onlyHighRestriction : UserSelections :=
  {[ "level_of_cultural_restrictiveness" := ["High"] ]}.

(** Five filtered categories. *)
Definition fiveFilters : UserSelections :=
  <[ "resources" := ["Low"] ]>
  (<[ "context" := ["Conflict"] ]>
  (<[ "age_group" := ["10-14"] ]>
  (<[ "literacy" := ["Low"] ]>
  {[ "sem_level" := ["Individual"; "Community"] ]}))).

(** Matches four of the five: everything but [resources]. *)
Definition fourOfFive : Method :=
  method_of "Storytelling Circles"
    (<[ "resources" := ["High"] ]>
    (<[ "context" := ["Conflict"; "Stable"] ]>
    {[ "sem_level" := ["Community"] ]})).

(** Matches three of the five: neither [resources] nor [context]. *)
Definition threeOfFive : Method :=
  method_of "Focus Group Discussions"
    (<[ "resources" := ["High"] ]>
    (<[ "context" := ["Stable"] ]>
    {[ "sem_level" := ["Community"] ]})).

Definition newline : string := String "010"%char EmptyString.

(** A file whose three level headers derive the same id, two of them with the
    same option, followed by two methods. *)
Definition sampleCsv : string :=
  "Method;SEM Level - Individual;sem level - Community;SEM  Level-Individual;Link"
  +:+ newline +:+ "Photovoice;x;yes;TRUE;www.example.org"
  +:+ newline +:+ "Administrative Data;;no;;null" +:+ newline.

Definition sampleCatalog : Csv.Catalog :=
  Csv.mkCatalog
    [ Category.mk "sem_level" "SEM Level" ["Individual"; "Community"] ]
    [ mkMethod "Photovoice"
        "Photovoice methodology for adolescent girl empowerment research"
        {[ "sem_level" := ["Individual"; "Community"] ]}
        (Some "https://www.example.org") None None None None;
      mkMethod "Administrative Data"
        "Administrative Data methodology for adolescent girl empowerment research"
        {[ "sem_level" := [] ]} None None None None None ].

(** The first method and the one category of [sampleCatalog]. *)
Definition samplePhotovoice : Method :=
  mkMethod "Photovoice"
    "Photovoice methodology for adolescent girl empowerment research"
    {[ "sem_level" := ["Individual"; "Community"] ]}
    (Some "https://www.example.org") None None None None.

Definition sampleLevelCategory : Category.t :=
  Category.mk "sem_level" "SEM Level" ["Individual"; "Community"].

End Samples.

(** ** Vocabulary for the further properties *)

Module Text.

(** Every code unit of [s] satisfies [p]. *)
Fixpoint strForall (p : ascii → bool) (s : string) : bool :=
  match s with
  | EmptyString => true
  | String c s' => p c && strForall p s'
  end.

(** The code unit [c] occurs in [s]. *)
Fixpoint strHas (c : ascii) (s : string) : bool :=
  match s with
  | EmptyString => false
  | String d s' => Ascii.eqb d c || strHas c s'
  end.

(** The text made of the given lines, each followed by the line ending
    [eol]. *)
Fixpoint unlines (eol : string) (lines : list string) : string :=
  match lines with
  | [] => EmptyString
  | line :: rest => line +:+ eol +:+ unlines eol rest
  end.

End Text.

Module CsvFacts.
Import JsString JsObject Csv.

(** [lines]: the trimmed, non-empty lines of the file. *)
Definition fileLines (data : string) : list string :=
  List.filter (fun line => negb (String.eqb line "")) (map trim (split "010"%char data)).

(** An optional field that holds neither the empty string nor the
    placeholder [null]. *)
Definition presentOrAbsent (field : option string) : Prop :=
  field ≠ Some "" ∧ field ≠ Some "null".

(** An optional URL field that, when set, starts with a protocol. *)
Definition hasProtocol (field : option string) : Prop :=
  ∀ url, field = Some url →
    startsWith url "http://" = true ∨ startsWith url "https://" = true.

(** The column names the row loop handles before it looks for a category. *)
Definition isSpecialHeader (headerLower : string) : bool :=
  isLinkHeader headerLower || String.eqb headerLower "link2"
  || String.eqb headerLower "cost tier" || String.eqb headerLower "connectivity"
  || String.eqb headerLower "type" || String.eqb headerLower "description".

(** A category header whose derived id is the name of a property every
    object inherits. *)
Definition throwsOn (header : string) : bool :=
  negb (isLinkHeader (trim (toLowerCase header)))
  && match matchHeader header with
     | Some (group1, _) => includes objectPrototypeKeys (categoryIdOf (trim group1))
     | None => false
     end.

(** [methods.every(m => m.name)], the check the script prints. *)
Definition allMethodsHaveName (methods : list Method) : bool :=
  forallb (fun m => negb (String.eqb (name m) "")) methods.

(** [methods.filter(m => m.link).length], the statistic the script prints. *)
Definition methodsWithLinks (methods : list Method) : nat :=
  length (List.filter (fun m => match link m with
                                | Some url => negb (String.eqb url "")
                                | None => false
                                end) methods).

(** Every attribute of the method names a category registered in [st], and
    lists options of that category only. *)
Definition attributesWithin (st : HeaderState) (m : Method) : Prop :=
  ∀ k values, attributes m !! k = Some values →
    ∃ address c, categoryMap st !! k = Some address ∧ objects st !! address = Some c
      ∧ ∀ v, v ∈ values → v ∈ Category.options c.

(** The method [m'] is the method [m] but for its [link]. *)
Definition sameButLink (m m' : Method) : Prop :=
  name m' = name m ∧ description m' = description m
  ∧ attributes m' = attributes m ∧ link2 m' = link2 m
  ∧ costTier m' = costTier m ∧ connectivity m' = connectivity m ∧ type m' = type m.

(** A column that cannot set the description: it is no Description column, or
    its cell is blank or the placeholder [null]. *)
Definition leavesDescription (column : string * string) : Prop :=
  trim (toLowerCase column.1) = "description" →
  trim column.2 = "" ∨ trim column.2 = "null".

End CsvFacts.

(** ** Properties of the array helpers *)

Lemma includes_In (arr : list string) (x : string) :
  includes arr x = true ↔ In x arr.
Proof.
  unfold includes. rewrite existsb_exists. split.
  - intros (y & Hy & Heq). apply String.eqb_eq in Heq. by subst.
  - intros Hin. exists x. split; [done | apply String.eqb_refl].
Qed.

Lemma includes_false (arr : list string) (x : string) :
  includes arr x = false ↔ ¬ In x arr.
Proof.
  rewrite <- includes_In. destruct (includes arr x); split; intros; done.
Qed.

Lemma some_false_disjoint (declared chosen : list string) :
  some (fun level => includes declared level) chosen = false
  ↔ ∀ v, In v chosen → ¬ In v declared.
Proof.
  unfold some. induction chosen as [|c chosen IH]; simpl.
  - split; [by intros _ v [] | done].
  - rewrite orb_false_iff, IH, includes_false. split.
    + intros [Hc Hrest] v [<- | Hin]; [done | by apply Hrest].
    + intros H. split; [apply H; by left | intros v Hv; apply H; by right].
Qed.

(** A one-element array that includes [x] is [[x]]. *)
Lemma includes_singleton (arr : list string) (x : string) :
  includes arr x && (length arr =? 1)%nat = true ↔ arr = [x].
Proof.
  split.
  - intros [Hin Hlen]%andb_true_iff. apply Nat.eqb_eq in Hlen.
    apply includes_In in Hin.
    destruct arr as [|y [|z arr]]; simpl in *; try done.
    destruct Hin as [-> | []]. done.
  - intros ->. simpl. by rewrite String.eqb_refl.
Qed.

(** ** Properties of the semantic validator *)

Section SemanticRules.
Import Semantic Samples.

Lemma isSemanticMismatch_rules (m : Method) (sel : UserSelections) :
  isSemanticMismatch m sel
  = semLevelMismatch m sel || digitalMismatch m sel || visibilityMismatch m sel.
Proof.
  unfold isSemanticMismatch.
  by destruct (semLevelMismatch m sel), (digitalMismatch m sel), (visibilityMismatch m sel).
Qed.

(** C1. A method that declares at least one SEM level, against a selection
    that has the [sem_level] key and shares no value with the method's levels,
    is a semantic mismatch; a method that declares no level is never caught by
    the level rule. *)
Theorem level_overlap_rule (m : Method) (sel : UserSelections) :
  (∀ declared chosen,
      attributes m !! "sem_level" = Some declared → declared ≠ [] →
      sel !! "sem_level" = Some chosen →
      (∀ v, In v chosen → ¬ In v declared) →
      isSemanticMismatch m sel = true)
  ∧ (default [] (attributes m !! "sem_level") = [] → semLevelMismatch m sel = false).
Proof.
  split.
  - intros declared chosen Hm Hne Hs Hdisj.
    rewrite isSemanticMismatch_rules. unfold semLevelMismatch.
    rewrite Hs, Hm. simpl.
    apply some_false_disjoint in Hdisj. rewrite Hdisj.
    destruct declared; [done | reflexivity].
  - intros Hnone. unfold semLevelMismatch. rewrite Hnone.
    destruct (sel !! "sem_level"); [apply andb_false_r | done].
Qed.

Lemma level_overlap_rule_witness :
  isSemanticMismatch administrativeData onlyIndividual = true.
Proof.
  apply (proj1 (level_overlap_rule administrativeData onlyIndividual)
           ["Institutional"] ["Individual"]).
  - reflexivity.
  - discriminate.
  - reflexivity.
  - intros v [<- | []] [Heq | []]. discriminate.
Defined.

(** C3. For a method of the [digitalMethods] list the technology rule fires
    exactly when the selection maps the technology-access key to the
    one-element array [["Low"]]: the method is then a semantic mismatch.  With
    the key absent, with more than one selected value, and with
    [["Low"; "Medium"]] in particular, the rule does not fire; read as a set
    (no repeated value), the firing selection is exactly {Low}. *)
Theorem technology_floor_rule (m : Method) (sel : UserSelections) :
  In (name m) digitalMethods →
  (digitalMismatch m sel = true
   ↔ sel !! "participants_access_to_technology_eg_phones_internet" = Some ["Low"])
  ∧ (sel !! "participants_access_to_technology_eg_phones_internet" = Some ["Low"] →
     isSemanticMismatch m sel = true)
  ∧ (∀ chosen,
       sel !! "participants_access_to_technology_eg_phones_internet" = Some chosen →
       (1 < length chosen)%nat → digitalMismatch m sel = false)
  ∧ (sel !! "participants_access_to_technology_eg_phones_internet"
       = Some ["Low"; "Medium"] → digitalMismatch m sel = false)
  ∧ (sel !! "participants_access_to_technology_eg_phones_internet" = None →
     digitalMismatch m sel = false)
  ∧ (∀ chosen,
       sel !! "participants_access_to_technology_eg_phones_internet" = Some chosen →
       NoDup chosen →
       (digitalMismatch m sel = true ↔ ∀ v, In v chosen ↔ v = "Low")).
Proof.
  intros Hin. apply includes_In in Hin.
  assert (Hiff : digitalMismatch m sel = true
                 ↔ sel !! "participants_access_to_technology_eg_phones_internet"
                   = Some ["Low"]).
  { unfold digitalMismatch, userTech. rewrite Hin, includes_singleton.
    destruct (sel !! "participants_access_to_technology_eg_phones_internet");
      simpl; split; congruence. }
  split; [exact Hiff |]. split; [| split; [| split; [| split]]].
  - intros H. rewrite isSemanticMismatch_rules. apply Hiff in H. rewrite H.
    by rewrite orb_true_r.
  - intros chosen Hsel Hlen. apply not_true_is_false. intros E. apply Hiff in E.
    rewrite Hsel in E. injection E as ->. simpl in Hlen. lia.
  - intros Hsel. apply not_true_is_false. intros E. apply Hiff in E. congruence.
  - intros Hsel. apply not_true_is_false. intros E. apply Hiff in E. congruence.
  - intros chosen Hsel Hnd. rewrite Hiff, Hsel. split.
    + intros [= ->] v. simpl. split; [by intros [<- | []] | by left].
    + intros Hset. f_equal. destruct chosen as [|a [|b rest]].
      * exfalso. by apply (proj2 (Hset "Low")).
      * f_equal. apply Hset. by left.
      * exfalso. apply NoDup_cons in Hnd as [Hnotin _].
        assert (a = "Low") as -> by (apply Hset; by left).
        assert (b = "Low") as -> by (apply Hset; right; by left).
        apply Hnotin. by left.
Qed.

(** Participatory Video is excluded under a Low-only selection and is not
    caught by the rule under Low and Medium. *)
Lemma technology_floor_rule_witness :
  isSemanticMismatch participatoryVideo onlyLowTech = true
  ∧ digitalMismatch participatoryVideo
      {[ "participants_access_to_technology_eg_phones_internet" := ["Low"; "Medium"] ]}
    = false.
Proof.
  split.
  - apply (proj1 (proj2 (technology_floor_rule participatoryVideo onlyLowTech
                           (or_intror (or_intror (or_introl eq_refl)))))).
    reflexivity.
  - apply (proj1 (proj2 (proj2 (proj2
             (technology_floor_rule participatoryVideo
                {[ "participants_access_to_technology_eg_phones_internet"
                   := ["Low"; "Medium"] ]}
                (or_intror (or_intror (or_introl eq_refl)))))))).
    reflexivity.
Defined.

(** C4. For a method of the [visibilityMethods] list (Photovoice is one) the
    cultural rule fires exactly when the selection maps the
    cultural-restrictiveness key to the one-element array [["High"]]: the
    method is then a semantic mismatch.  With the key absent, with more than
    one selected value, and with [["High"; "Low"]] in particular, the rule does
    not fire; read as a set (no repeated value), the firing selection is
    exactly {High}. *)
Theorem cultural_visibility_rule (m : Method) (sel : UserSelections) :
  In (name m) visibilityMethods →
  In "Photovoice" visibilityMethods
  ∧ (visibilityMismatch m sel = true
     ↔ sel !! "level_of_cultural_restrictiveness" = Some ["High"])
  ∧ (sel !! "level_of_cultural_restrictiveness" = Some ["High"] →
     isSemanticMismatch m sel = true)
  ∧ (∀ chosen, sel !! "level_of_cultural_restrictiveness" = Some chosen →
       (1 < length chosen)%nat → visibilityMismatch m sel = false)
  ∧ (sel !! "level_of_cultural_restrictiveness" = Some ["High"; "Low"] →
     visibilityMismatch m sel = false)
  ∧ (sel !! "level_of_cultural_restrictiveness" = None →
     visibilityMismatch m sel = false)
  ∧ (∀ chosen, sel !! "level_of_cultural_restrictiveness" = Some chosen →
       NoDup chosen →
       (visibilityMismatch m sel = true ↔ ∀ v, In v chosen ↔ v = "High")).
Proof.
  intros Hin. apply includes_In in Hin.
  assert (Hiff : visibilityMismatch m sel = true
                 ↔ sel !! "level_of_cultural_restrictiveness" = Some ["High"]).
  { unfold visibilityMismatch, userCultural. rewrite Hin, includes_singleton.
    destruct (sel !! "level_of_cultural_restrictiveness");
      simpl; split; congruence. }
  split; [by left |]. split; [exact Hiff |]. split; [| split; [| split; [| split]]].
  - intros H. rewrite isSemanticMismatch_rules. apply Hiff in H. rewrite H.
    by rewrite orb_true_r.
  - intros chosen Hsel Hlen. apply not_true_is_false. intros E. apply Hiff in E.
    rewrite Hsel in E. injection E as ->. simpl in Hlen. lia.
  - intros Hsel. apply not_true_is_false. intros E. apply Hiff in E. congruence.
  - intros Hsel. apply not_true_is_false. intros E. apply Hiff in E. congruence.
  - intros chosen Hsel Hnd. rewrite Hiff, Hsel. split.
    + intros [= ->] v. simpl. split; [by intros [<- | []] | by left].
    + intros Hset. f_equal. destruct chosen as [|a [|b rest]].
      * exfalso. by apply (proj2 (Hset "High")).
      * f_equal. apply Hset. by left.
      * exfalso. apply NoDup_cons in Hnd as [Hnotin _].
        assert (a = "High") as -> by (apply Hset; by left).
        assert (b = "High") as -> by (apply Hset; right; by left).
        apply Hnotin. by left.
Qed.

(** Photovoice is excluded under a High-only selection and is not caught by
    the rule under High and Low. *)
Lemma cultural_visibility_rule_witness :
  isSemanticMismatch photovoice onlyHighRestriction = true
  ∧ visibilityMismatch photovoice
      {[ "level_of_cultural_restrictiveness" := ["High"; "Low"] ]} = false.
Proof.
  split.
  - apply (proj1 (proj2 (proj2 (cultural_visibility_rule photovoice onlyHighRestriction
                                  (or_introl eq_refl))))).
    reflexivity.
  - apply (proj1 (proj2 (proj2 (proj2 (proj2
             (cultural_visibility_rule photovoice
                {[ "level_of_cultural_restrictiveness" := ["High"; "Low"] ]}
                (or_introl eq_refl))))))).
    reflexivity.
Defined.

End SemanticRules.

Section LevelRuleOnEmptySelections.
Import Semantic Samples.

Lemma level_rule_absent_key (m : Method) (sel : UserSelections) :
  sel !! "sem_level" = None → semLevelMismatch m sel = false.
Proof. intros H. unfold semLevelMismatch. by rewrite H. Qed.

(** With the key present and mapped to the empty array, rule 1 fires for
    every method that declares a level. *)
Lemma level_rule_empty_selection (m : Method) (sel : UserSelections) :
  sel !! "sem_level" = Some [] →
  semLevelMismatch m sel = (0 <? length (default [] (attributes m !! "sem_level")))%nat.
Proof. intros H. unfold semLevelMismatch. by rewrite H. Qed.

(** C6. Evaluation at the selection [{ sem_level: [] }]: the level rule of
    [isSemanticMismatch] does apply, and excludes Administrative Data, although
    the empty array stands for "no filter on this category". *)
Theorem level_rule_fires_on_empty_selection :
  noLevelChosen !! "sem_level" = Some []
  ∧ semLevelMismatch administrativeData noLevelChosen = true
  ∧ isSemanticMismatch administrativeData noLevelChosen = true.
Proof. by vm_compute. Qed.

(** The Phase 2 check never skips a method when no level is selected. *)
Lemma phase2_no_level_selected (ufs : list string) (m : Method) (sel : UserSelections) :
  default [] (sel !! "sem_level") = [] → phase2SemLevelSkip ufs m sel = false.
Proof.
  intros H. unfold phase2SemLevelSkip. rewrite H. simpl.
  by destruct (includes ufs "sem_level").
Qed.

(** Where some level is selected and [userFilterSelections] lists
    [sem_level], the two checks decide alike. *)
Lemma phase2_agrees_on_chosen_levels (ufs : list string) (m : Method)
    (sel : UserSelections) (chosen : list string) :
  sel !! "sem_level" = Some chosen → chosen ≠ [] →
  includes ufs "sem_level" = true →
  phase2SemLevelSkip ufs m sel = semLevelMismatch m sel.
Proof.
  intros Hsel Hne Hufs. unfold phase2SemLevelSkip, semLevelMismatch.
  rewrite Hufs, Hsel. simpl.
  destruct chosen as [|c chosen]; [done |].
  destruct (default [] (attributes m !! "sem_level")) as [|d declared]; simpl.
  - by rewrite andb_false_r.
  - by rewrite andb_true_r.
Qed.

(** C7. Evaluation at the selection [{ sem_level: [] }] and a method that
    declares a level: the check inside [isSemanticMismatch] excludes the
    method, the Phase 2 check keeps it, whatever [userFilterSelections]
    holds. *)
Theorem option1_and_phase2_differ_on_empty_selection :
  semLevelMismatch administrativeData noLevelChosen = true
  ∧ ∀ ufs, phase2SemLevelSkip ufs administrativeData noLevelChosen = false.
Proof.
  split; [by vm_compute |].
  intros ufs. by apply phase2_no_level_selected.
Qed.

End LevelRuleOnEmptySelections.

(** ** Properties of the tier classification *)

Section TierClassification.
Import Semantic Tiers TierSpec Samples.

Lemma groupStep_bucket (t : tier) (sel : UserSelections) (g : Groups) (m : Method) :
  bucket t (groupStep sel g m)
  = (bucket t g ++ (if decide (placement sel m = Some t)
                    then [mkMethodData m (score m sel)] else []))%list.
Proof.
  unfold groupStep, placement, remainingTiers, push. simpl.
  destruct (isSemanticMismatch m sel); [by rewrite app_nil_r |].
  destruct (Qeq_bool (score m sel) 100);
    [by destruct t; simpl; rewrite ?app_nil_r |].
  destruct (Qle_bool 80 (score m sel));
    [by destruct t; simpl; rewrite ?app_nil_r |].
  destruct (Qle_bool (score m sel) 0); simpl;
    by destruct t; simpl; rewrite ?app_nil_r.
Qed.

Lemma groupStep_excluded (sel : UserSelections) (g : Groups) (m : Method) :
  excluded (groupStep sel g m) = excluded g.
Proof.
  unfold groupStep, remainingTiers.
  by repeat (case_match; simpl).
Qed.

Lemma fold_bucket (t : tier) (sel : UserSelections) (ms : list Method) (g : Groups) :
  bucket t (fold_left (groupStep sel) ms g)
  = (bucket t g ++ flat_map (fun m => if decide (placement sel m = Some t)
                                       then [mkMethodData m (score m sel)] else []) ms)%list.
Proof.
  revert g. induction ms as [|m ms IH]; intros g; simpl.
  - by rewrite app_nil_r.
  - by rewrite IH, groupStep_bucket, <- app_assoc.
Qed.

Lemma fold_excluded (sel : UserSelections) (ms : list Method) (g : Groups) :
  excluded (fold_left (groupStep sel) ms g) = excluded g.
Proof.
  revert g. induction ms as [|m ms IH]; intros g; simpl; [done |].
  by rewrite IH, groupStep_excluded.
Qed.

(** What a bucket of the result holds: the entries of the catalog's methods
    placed in that tier, in catalog order. *)
Lemma groupMethodsByFit_bucket (t : tier) (ms : list Method) (sel : UserSelections)
    (md : MethodData) :
  In md (bucket t (groupMethodsByFit ms sel))
  ↔ In (method md) ms ∧ md = mkMethodData (method md) (score (method md) sel)
    ∧ placement sel (method md) = Some t.
Proof.
  unfold groupMethodsByFit. rewrite fold_bucket.
  replace (bucket t emptyGroups) with (@nil MethodData) by (by destruct t).
  simpl. rewrite in_flat_map. split.
  - intros (m & Hm & Hin). destruct (decide (placement sel m = Some t)) as [Hp|]; [| done].
    destruct Hin as [<- | []]. done.
  - intros (Hm & Hmd & Hp). exists (method md). split; [done |].
    rewrite decide_True by done. left. by symmetry.
Qed.

Lemma listedIn_bucket (t : tier) (ms : list Method) (sel : UserSelections) (m : Method) :
  listedIn (bucket t (groupMethodsByFit ms sel)) m ↔ In m ms ∧ placement sel m = Some t.
Proof.
  unfold listedIn. split.
  - intros (md & Hin & <-). apply groupMethodsByFit_bucket in Hin. tauto.
  - intros [Hm Hp]. exists (mkMethodData m (score m sel)).
    split; [| done]. by apply groupMethodsByFit_bucket.
Qed.

Lemma groupMethodsByFit_excluded (ms : list Method) (sel : UserSelections) :
  excluded (groupMethodsByFit ms sel) = [].
Proof. unfold groupMethodsByFit. by rewrite fold_excluded. Qed.

(** C2, as the code has it. A method for which [isSemanticMismatch] holds is
    skipped: it has no entry in [bestFit], [goodAlternatives] or
    [stretchOptions], whatever its score, and it is not recorded in an
    [excluded] bucket either. *)
Theorem semantic_mismatch_is_skipped (ms : list Method) (sel : UserSelections) (m : Method) :
  isSemanticMismatch m sel = true →
  ¬ listedIn (bestFit (groupMethodsByFit ms sel)) m
  ∧ ¬ listedIn (goodAlternatives (groupMethodsByFit ms sel)) m
  ∧ ¬ listedIn (stretchOptions (groupMethodsByFit ms sel)) m
  ∧ ¬ listedIn (excluded (groupMethodsByFit ms sel)) m.
Proof.
  intros Hmis.
  assert (Hnone : ∀ t, ¬ listedIn (bucket t (groupMethodsByFit ms sel)) m).
  { intros t [_ Hp]%listedIn_bucket. unfold placement in Hp. by rewrite Hmis in Hp. }
  split; [apply (Hnone BestFit) |].
  split; [apply (Hnone GoodAlternatives) |].
  split; [apply (Hnone StretchOptions) |].
  rewrite groupMethodsByFit_excluded. by intros (md & [] & _).
Qed.

(** Photovoice under a High-only cultural selection scores 100 and is
    skipped all the same. *)
Lemma semantic_mismatch_is_skipped_witness :
  (score photovoice onlyHighRestriction == 100)%Q
  ∧ ¬ listedIn (bestFit (groupMethodsByFit [photovoice] onlyHighRestriction)) photovoice.
Proof.
  split; [by vm_compute |].
  apply (semantic_mismatch_is_skipped [photovoice] onlyHighRestriction photovoice).
  by vm_compute.
Defined.

(** C2, as stated, fails: Administrative Data under an Individual-only
    selection is a method of the catalog and a semantic mismatch, and the
    [excluded] bucket of the result does not hold it. *)
Lemma semantic_mismatch_not_in_excluded :
  In administrativeData [administrativeData; interviews]
  ∧ isSemanticMismatch administrativeData onlyIndividual = true
  ∧ ¬ listedIn (excluded (groupMethodsByFit [administrativeData; interviews] onlyIndividual))
        administrativeData.
Proof.
  split; [by left |]. split; [by vm_compute |].
  rewrite groupMethodsByFit_excluded. by intros (md & [] & _).
Qed.

(** The two-method scenario: under an Individual-only selection the
    interviews are the one best fit and Administrative Data is listed
    nowhere. *)
Example individual_only_scenario :
  groupMethodsByFit [administrativeData; interviews] onlyIndividual
  = mkGroups [mkMethodData interviews (100 # 1)] [] [] [].
Proof. reflexivity. Qed.

Lemma placed_in_one_tier (t : tier) (ms : list Method) (sel : UserSelections) (m : Method) :
  In m ms → placement sel m = Some t →
  listedIn (bucket t (groupMethodsByFit ms sel)) m
  ∧ ∀ t', t' ≠ t → ¬ listedIn (bucket t' (groupMethodsByFit ms sel)) m.
Proof.
  intros Hm Hp. split.
  - by apply listedIn_bucket.
  - intros t' Hne [_ Hp']%listedIn_bucket. congruence.
Qed.

Lemma placement_bestFit (sel : UserSelections) (m : Method) :
  isSemanticMismatch m sel = false → (score m sel == 100)%Q →
  placement sel m = Some BestFit.
Proof.
  intros Hvalid Heq. unfold placement. rewrite Hvalid.
  apply Qeq_bool_iff in Heq. by rewrite Heq.
Qed.

Lemma placement_goodAlternatives (sel : UserSelections) (m : Method) :
  isSemanticMismatch m sel = false → (80 <= score m sel)%Q → (score m sel < 100)%Q →
  placement sel m = Some GoodAlternatives.
Proof.
  intros Hvalid Hge Hlt. unfold placement. rewrite Hvalid.
  destruct (Qeq_bool (score m sel) 100) eqn:E.
  - apply Qeq_bool_iff in E. rewrite E in Hlt. by apply Qlt_irrefl in Hlt.
  - apply Qle_bool_iff in Hge. by rewrite Hge.
Qed.

Lemma placement_stretchOptions (sel : UserSelections) (m : Method) :
  isSemanticMismatch m sel = false → (0 < score m sel)%Q → (score m sel < 80)%Q →
  placement sel m = Some StretchOptions.
Proof.
  intros Hvalid Hgt Hlt. unfold placement. rewrite Hvalid.
  destruct (Qeq_bool (score m sel) 100) eqn:E.
  { apply Qeq_bool_iff in E. rewrite E in Hlt. by vm_compute in Hlt. }
  destruct (Qle_bool 80 (score m sel)) eqn:E80.
  { apply Qle_bool_iff in E80. by apply Qle_not_lt in E80. }
  destruct (Qle_bool (score m sel) 0) eqn:E0.
  { apply Qle_bool_iff in E0. by apply Qle_not_lt in E0. }
  done.
Qed.

(** C5. A semantically valid method of the catalog is listed in exactly one
    tier according to its score: [bestFit] at exactly 100, [goodAlternatives]
    from 80 (included) to below 100, [stretchOptions] above 0 and below 80. *)
Theorem tier_boundaries (ms : list Method) (sel : UserSelections) (m : Method) :
  In m ms → isSemanticMismatch m sel = false →
  ((score m sel == 100)%Q →
     listedIn (bestFit (groupMethodsByFit ms sel)) m
     ∧ ¬ listedIn (goodAlternatives (groupMethodsByFit ms sel)) m
     ∧ ¬ listedIn (stretchOptions (groupMethodsByFit ms sel)) m)
  ∧ ((80 <= score m sel)%Q → (score m sel < 100)%Q →
     listedIn (goodAlternatives (groupMethodsByFit ms sel)) m
     ∧ ¬ listedIn (stretchOptions (groupMethodsByFit ms sel)) m
     ∧ ¬ listedIn (bestFit (groupMethodsByFit ms sel)) m)
  ∧ ((0 < score m sel)%Q → (score m sel < 80)%Q →
     listedIn (stretchOptions (groupMethodsByFit ms sel)) m
     ∧ ¬ listedIn (goodAlternatives (groupMethodsByFit ms sel)) m
     ∧ ¬ listedIn (bestFit (groupMethodsByFit ms sel)) m).
Proof.
  intros Hm Hvalid. split; [| split].
  - intros Heq.
    destruct (placed_in_one_tier BestFit ms sel m Hm) as [Hin Hout];
      [by apply placement_bestFit |].
    split; [exact Hin |].
    split; [by apply (Hout GoodAlternatives) | by apply (Hout StretchOptions)].
  - intros Hge Hlt.
    destruct (placed_in_one_tier GoodAlternatives ms sel m Hm) as [Hin Hout];
      [by apply placement_goodAlternatives |].
    split; [exact Hin |].
    split; [by apply (Hout StretchOptions) | by apply (Hout BestFit)].
  - intros Hgt Hlt.
    destruct (placed_in_one_tier StretchOptions ms sel m Hm) as [Hin Hout];
      [by apply placement_stretchOptions |].
    split; [exact Hin |].
    split; [by apply (Hout GoodAlternatives) | by apply (Hout BestFit)].
Qed.

(** Four of five filtered categories (80%) is a good alternative and no
    stretch option; three of five (60%) is a stretch option. *)
Lemma tier_boundaries_witness :
  (matchedCount fourOfFive fiveFilters = 4 ∧ filteredCount fiveFilters = 5
   ∧ listedIn (goodAlternatives (groupMethodsByFit [fourOfFive; threeOfFive] fiveFilters))
       fourOfFive
   ∧ ¬ listedIn (stretchOptions (groupMethodsByFit [fourOfFive; threeOfFive] fiveFilters))
         fourOfFive)
  ∧ (matchedCount threeOfFive fiveFilters = 3
     ∧ listedIn (stretchOptions (groupMethodsByFit [fourOfFive; threeOfFive] fiveFilters))
         threeOfFive).
Proof.
  split.
  - split; [by vm_compute |]. split; [by vm_compute |].
    assert (H := proj1 (proj2 (tier_boundaries [fourOfFive; threeOfFive] fiveFilters
                                 fourOfFive (or_introl eq_refl) eq_refl))).
    destruct H as (Hgood & Hstretch & _).
    + apply Qle_bool_iff. by vm_compute.
    + by vm_compute.
    + by split.
  - split; [by vm_compute |].
    apply (proj2 (proj2 (tier_boundaries [fourOfFive; threeOfFive] fiveFilters
                           threeOfFive (or_intror (or_introl eq_refl)) eq_refl))).
    + by vm_compute.
    + by vm_compute.
Defined.

End TierClassification.

(** ** Properties of the string helpers *)

Section Strings.
Import JsString CsvSpec.

Lemma trimEnd_idempotent (s : string) : trimEnd (trimEnd s) = trimEnd s.
Proof.
  induction s as [|c s IH]; simpl; [done |].
  destruct (trimEnd s) as [|d t] eqn:E.
  - destruct (isWhiteSpace c) eqn:Ec; simpl; [done |]. by rewrite Ec.
  - change (trimEnd (String c (String d t))) with
      (match trimEnd (String d t) with
       | EmptyString => if isWhiteSpace c then EmptyString else String c EmptyString
       | u => String c u
       end).
    by rewrite IH.
Qed.

Lemma headTrimmed_trimStart (s : string) : headTrimmed (trimStart s).
Proof.
  induction s as [|c s IH]; simpl; [done |].
  destruct (isWhiteSpace c) eqn:Ec; [done | by simpl].
Qed.

Lemma headTrimmed_trimEnd (s : string) : headTrimmed s → headTrimmed (trimEnd s).
Proof.
  destruct s as [|c s]; simpl; [done |]. intros Hc.
  destruct (trimEnd s); simpl; [by rewrite Hc | done].
Qed.

Lemma trimStart_headTrimmed (s : string) : headTrimmed s → trimStart s = s.
Proof. destruct s as [|c s]; simpl; [done |]. by intros ->. Qed.

(** [trim] leaves a trimmed string alone. *)
Lemma trim_idempotent (s : string) : trim (trim s) = trim s.
Proof.
  unfold trim.
  rewrite (trimStart_headTrimmed (trimEnd (trimStart s))).
  - apply trimEnd_idempotent.
  - apply headTrimmed_trimEnd, headTrimmed_trimStart.
Qed.

Lemma startsWith_cons (a c : ascii) (p s : string) :
  startsWith (String c s) (String a p) = Ascii.eqb a c && startsWith s p.
Proof. reflexivity. Qed.

Lemma startsWith_app (p s : string) : startsWith (p +:+ s) p = true.
Proof.
  induction p as [|a p IH]; simpl; [by destruct s |].
  by rewrite Ascii.eqb_refl.
Qed.

Example matchHeader_category_option :
  matchHeader "SEM Level - Individual" = Some ("SEM Level", "Individual").
Proof. reflexivity. Qed.

(** The lazy first group stops at the first dash. *)
Example matchHeader_first_dash : matchHeader "a-b - c" = Some ("a", "b - c").
Proof. reflexivity. Qed.

Example matchHeader_no_dash : matchHeader "Cost Tier" = None.
Proof. reflexivity. Qed.

Example categoryIdOf_level : Csv.categoryIdOf "SEM  Level" = "sem_level".
Proof. reflexivity. Qed.

Example categoryIdOf_punctuation :
  Csv.categoryIdOf "Level of Cultural Restrictiveness (context)"
  = "level_of_cultural_restrictiveness_context".
Proof. reflexivity. Qed.

Example split_cells : split ";" "a;b;;c;" = ["a"; "b"; ""; "c"; ""].
Proof. reflexivity. Qed.

End Strings.

(** ** Link cells *)

Section Links.
Import JsString Csv Samples.

Lemma normalizeLink_protocol (value : string) :
  trim value = value →
  startsWith value "http://" = true ∨ startsWith value "https://" = true →
  normalizeLink value = Some value.
Proof.
  intros Htrim Hstart. unfold normalizeLink. rewrite Htrim.
  destruct (String.eqb_spec value "") as [-> | _]; [by destruct Hstart |].
  destruct (String.eqb_spec value "null") as [-> | _]; [by destruct Hstart |].
  simpl.
  assert (startsWith value "www." = false) as ->.
  { destruct value as [|c value]; [done |].
    rewrite startsWith_cons.
    destruct Hstart as [H | H]; rewrite startsWith_cons in H;
      apply andb_true_iff in H as [Hc _];
      apply Ascii.eqb_eq in Hc; by subst c. }
  rewrite orb_false_r.
  by destruct Hstart as [-> | ->]; rewrite ?orb_true_r.
Qed.

Lemma normalizeLink_www (value : string) :
  trim value = value → startsWith value "www." = true →
  normalizeLink value = Some ("https://" +:+ value).
Proof.
  intros Htrim Hstart. unfold normalizeLink. rewrite Htrim.
  destruct (String.eqb_spec value "") as [-> | _]; [done |].
  destruct (String.eqb_spec value "null") as [-> | _]; [done |].
  simpl. by rewrite Hstart, orb_true_r.
Qed.

Lemma normalizeLink_domain (value : string) :
  trim value = value →
  startsWith value "http://" = false → startsWith value "https://" = false →
  startsWith value "www." = false →
  strIncludes value "." = true → strIncludes value " " = false →
  normalizeLink value = Some ("https://" +:+ value).
Proof.
  intros Htrim H1 H2 H3 Hdot Hspace. unfold normalizeLink. rewrite Htrim.
  destruct (String.eqb_spec value "") as [-> | _]; [done |].
  destruct (String.eqb_spec value "null") as [-> | _]; [done |].
  simpl. by rewrite H1, H2, H3, Hdot, Hspace.
Qed.

Lemma normalizeLink_absent (value : string) :
  value = "" ∨ value = "null" → normalizeLink value = None.
Proof. by intros [-> | ->]. Qed.

Lemma processCell_link (method : Method) (header cell : string) :
  isLinkHeader (trim (toLowerCase header)) = true →
  processCell method (header, cell)
  = Return (match normalizeLink (trim cell) with
            | Some url => withLink method url
            | None => method
            end).
Proof.
  intros Hlink. unfold processCell. simpl. rewrite Hlink.
  destruct (String.eqb_spec (trim cell) "") as [-> | _]; done.
Qed.

(** C8. In a Link column, with [value] the trimmed cell: a value that starts
    with [http://] or [https://] is stored as [method.link] unchanged; one that
    starts with [www.] is stored behind [https://]; any other value with a dot
    and no space is stored behind [https://]; in each case nothing else of the
    method changes.  An empty cell and the cell [null] leave the method as it
    was, without a link of their own. *)
Theorem link_normalization (method : Method) (header cell : string) :
  isLinkHeader (trim (toLowerCase header)) = true →
  (startsWith (trim cell) "http://" = true ∨ startsWith (trim cell) "https://" = true →
     ∃ method', processCell method (header, cell) = Return method'
       ∧ link method' = Some (trim cell)
       ∧ CsvFacts.sameButLink method method')
  ∧ (startsWith (trim cell) "www." = true →
     ∃ method', processCell method (header, cell) = Return method'
       ∧ link method' = Some ("https://" +:+ trim cell)
       ∧ CsvFacts.sameButLink method method')
  ∧ (startsWith (trim cell) "http://" = false →
     startsWith (trim cell) "https://" = false →
     startsWith (trim cell) "www." = false →
     strIncludes (trim cell) "." = true → strIncludes (trim cell) " " = false →
     ∃ method', processCell method (header, cell) = Return method'
       ∧ link method' = Some ("https://" +:+ trim cell)
       ∧ CsvFacts.sameButLink method method')
  ∧ (trim cell = "" ∨ trim cell = "null" →
     processCell method (header, cell) = Return method
     ∧ (link method = None →
        ∀ method', processCell method (header, cell) = Return method' →
                   link method' = None)).
Proof.
  intros Hlink. rewrite (processCell_link method header cell Hlink).
  split; [| split; [| split]].
  - intros H. rewrite normalizeLink_protocol by (apply trim_idempotent || done).
    eexists. split; [reflexivity |]. split; [reflexivity |]. by repeat split.
  - intros H. rewrite normalizeLink_www by (apply trim_idempotent || done).
    eexists. split; [reflexivity |]. split; [reflexivity |]. by repeat split.
  - intros H1 H2 H3 H4 H5.
    rewrite normalizeLink_domain by (apply trim_idempotent || done).
    eexists. split; [reflexivity |]. split; [reflexivity |]. by repeat split.
  - intros H. rewrite normalizeLink_absent by done. split; [done |].
    intros Hnone method' [= <-]. done.
Qed.

Lemma link_normalization_witness :
  ∃ method', processCell interviews ("Link", " www.example.org ") = Return method'
    ∧ link method' = Some "https://www.example.org"
    ∧ CsvFacts.sameButLink interviews method'.
Proof.
  apply (proj1 (proj2 (link_normalization interviews "Link" " www.example.org " eq_refl))).
  reflexivity.
Defined.

End Links.

(** ** Loops that may throw *)

Section Loops.
Context {S A : Type} (body : S → A → result S).

Lemma forEach_cons (item : A) (rest : list A) (s s' : S) :
  forEach body (item :: rest) s = Return s'
  ↔ ∃ s1, body s item = Return s1 ∧ forEach body rest s1 = Return s'.
Proof.
  simpl. destruct (body s item) as [s1 |]; simpl.
  - split; [by exists s1 | by intros (? & [= <-] & ?)].
  - split; [done | by intros (? & ? & ?)].
Qed.

(** A property kept by every iteration is kept by the loop. *)
Lemma forEach_invariant (P : S → Prop) :
  (∀ s item s', P s → body s item = Return s' → P s') →
  ∀ items s s', P s → forEach body items s = Return s' → P s'.
Proof.
  intros Hstep items. induction items as [|item rest IH]; intros s s' HP Hrun.
  - simpl in Hrun. by injection Hrun as <-.
  - apply forEach_cons in Hrun as (s1 & Hbody & Hrest). eauto.
Qed.

(** A loop whose iterations all complete, completes. *)
Lemma forEach_completes (P : S → Prop) (items : list A) :
  (∀ s item, item ∈ items → P s → ∃ s', body s item = Return s' ∧ P s') →
  ∀ s, P s → ∃ s', forEach body items s = Return s' ∧ P s'.
Proof.
  induction items as [|item rest IH]; intros Hstep s HP.
  - by exists s.
  - destruct (Hstep s item) as (s1 & Hbody & HP1); [by left | done |].
    destruct (IH (fun s0 item0 Hin => Hstep s0 item0 (list_elem_of_further _ _ _ Hin)) s1 HP1)
      as (s' & Hrest & HP').
    exists s'. split; [| done]. apply forEach_cons. by exists s1.
Qed.

End Loops.

(** ** The header loop *)

Section Headers.
Import JsString JsObject Csv CsvSpec.

Lemma getProperty_Own {A : Type} (obj : gmap string A) (key : string) (a : A) :
  getProperty obj key = Own a ↔ obj !! key = Some a.
Proof.
  unfold getProperty. destruct (obj !! key) as [b |].
  - split; by intros [= ->].
  - by destruct (includes objectPrototypeKeys key).
Qed.

Lemma getProperty_Undefined {A : Type} (obj : gmap string A) (key : string) :
  getProperty obj key = Undefined → obj !! key = None.
Proof.
  unfold getProperty. destruct (obj !! key) as [b |]; [done |].
  by destruct (includes objectPrototypeKeys key).
Qed.

Lemma headerInv_initial : headerInv initialHeaderState.
Proof. by split. Qed.

Lemma createCategory_inv (st : HeaderState) (categoryId categoryName : string) :
  headerInv st → categoryMap st !! categoryId = None →
  headerInv (createCategory st categoryId categoryName).
Proof.
  intros [Hcats Hmo Hom Hopts] Hfresh. unfold createCategory, push. split; simpl.
  - rewrite Hcats, length_app. simpl. rewrite Nat.add_1_r. by rewrite seq_S.
  - intros k address [[<- <-] | [Hne Hk]]%lookup_insert_Some.
    + eexists. split; [by apply list_lookup_middle | done].
    + destruct (Hmo k address Hk) as (c & Hc & Hid). exists c. split; [| done].
      rewrite lookup_app_l; [done | by eapply lookup_lt_Some].
  - intros address c [[Hlt Hc] | [-> <-]]%lookup_snoc_Some.
    + assert (Hk := Hom address c Hc).
      rewrite lookup_insert_ne; [done | congruence].
    + simpl. apply lookup_insert_eq.
  - intros address c [[Hlt Hc] | [-> <-]]%lookup_snoc_Some.
    + by eapply Hopts.
    + simpl. apply NoDup_nil_2.
Qed.

Lemma createCategory_offers (st : HeaderState) (categoryId categoryName k o : string) :
  headerInv st → categoryMap st !! categoryId = None →
  offers st k o → offers (createCategory st categoryId categoryName) k o.
Proof.
  intros Hinv Hfresh (address & c & Hk & Hc & Ho). exists address, c.
  unfold createCategory, push. simpl. split; [| split]; [| | done].
  - rewrite lookup_insert_ne; [done | congruence].
  - rewrite lookup_app_l; [done | by eapply lookup_lt_Some].
Qed.

Lemma pushOption_inv (st : HeaderState) (address : nat) (c : Category.t) (o : string) :
  headerInv st → objects st !! address = Some c → o ∉ Category.options c →
  headerInv (pushOption st address o).
Proof.
  intros [Hcats Hmo Hom Hopts] Hc Hnew. unfold pushOption, push. split; simpl.
  - by rewrite length_alter.
  - intros k a Hk. destruct (Hmo k a Hk) as (c' & Hc' & Hid).
    rewrite list_lookup_alter. case_decide as Ha.
    + subst a. rewrite Hc. simpl. eexists. split; [done |]. simpl. congruence.
    + by exists c'.
  - intros a c'. rewrite list_lookup_alter. case_decide as Ha.
    + subst a. rewrite Hc. simpl. intros [= <-]. simpl. by apply Hom.
    + apply Hom.
  - intros a c'. rewrite list_lookup_alter. case_decide as Ha.
    + subst a. rewrite Hc. simpl. intros [= <-]. simpl.
      apply NoDup_app. split; [by eapply Hopts |]. split; [| apply NoDup_singleton].
      intros x Hx ->%list_elem_of_singleton. done.
    + apply Hopts.
Qed.

Lemma pushOption_offers (st : HeaderState) (address : nat) (o k o' : string) :
  offers st k o' → offers (pushOption st address o) k o'.
Proof.
  intros (a & c & Hk & Hc & Ho). unfold offers, pushOption, push. simpl.
  exists a. rewrite list_lookup_alter. case_decide as Ha.
  - subst a. rewrite Hc. simpl. eexists. split; [done |]. split; [done |].
    simpl. apply elem_of_app. by left.
  - by exists c.
Qed.

Lemma pushOption_offers_new (st : HeaderState) (address : nat) (c : Category.t)
    (k o : string) :
  categoryMap st !! k = Some address → objects st !! address = Some c →
  offers (pushOption st address o) k o.
Proof.
  intros Hk Hc. unfold offers, pushOption, push. simpl.
  exists address. rewrite list_lookup_alter_eq, Hc. simpl.
  eexists. split; [done |]. split; [done |]. simpl.
  apply elem_of_app. right. by apply list_elem_of_singleton.
Qed.

(** One header: the invariant is kept, what was offered stays offered, and a
    category header's own option is offered afterwards. *)
Lemma processHeader_spec (st st' : HeaderState) (header : string) :
  headerInv st → processHeader st header = Return st' →
  headerInv st'
  ∧ (∀ k o, offers st k o → offers st' k o)
  ∧ (isLinkHeader (trim (toLowerCase header)) = false →
     ∀ group1 group2, matchHeader header = Some (group1, group2) →
       offers st' (categoryIdOf (trim group1)) (trim group2)).
Proof.
  intros Hinv. unfold processHeader.
  destruct (isLinkHeader (trim (toLowerCase header))) eqn:Hlink.
  { intros [= <-]. split; [done |]. by split. }
  destruct (matchHeader header) as [[group1 group2] |] eqn:Hmatch.
  2: { intros [= <-]. split; [done |]. by split. }
  set (categoryId := categoryIdOf (trim group1)).
  set (optionName := trim group2).
  destruct (getProperty (categoryMap st) categoryId) as [address | |] eqn:Hget.
  - (* the category exists *)
    rewrite Hget. apply getProperty_Own in Hget.
    destruct (inv_map_object st Hinv _ _ Hget) as (c & Hc & Hid).
    rewrite Hc.
    destruct (includes (Category.options c) optionName) eqn:Hincl; intros [= <-].
    + split; [done |]. split; [done |].
      intros _ g1 g2 [= <- <-]. exists address, c.
      split; [done |]. split; [done |].
      apply list_elem_of_In. by apply includes_In.
    + split; [| split].
      * eapply pushOption_inv; [done | done |].
        rewrite list_elem_of_In. by apply includes_false.
      * intros k o. apply pushOption_offers.
      * intros _ g1 g2 [= <- <-]. by eapply pushOption_offers_new.
  - (* an inherited property stands in the way *)
    by rewrite Hget.
  - (* the category is created *)
    apply getProperty_Undefined in Hget.
    assert (Hinv1 := createCategory_inv st categoryId (trim group1) Hinv Hget).
    assert (Hmap : categoryMap (createCategory st categoryId (trim group1)) !! categoryId
                   = Some (length (objects st))) by apply lookup_insert_eq.
    assert (Hobj : objects (createCategory st categoryId (trim group1))
                     !! length (objects st)
                   = Some (Category.mk categoryId (trim group1) []))
      by (by apply list_lookup_middle).
    apply getProperty_Own in Hmap as Hget1. rewrite Hget1, Hobj. simpl.
    intros [= <-]. split; [| split].
    + eapply pushOption_inv; [done | done |]. simpl. apply not_elem_of_nil.
    + intros k o Hoff. apply pushOption_offers. by apply createCategory_offers.
    + intros _ g1 g2 [= <- <-]. by eapply pushOption_offers_new.
Qed.

Lemma headerLoop_spec (headers : list string) (st st' : HeaderState) :
  headerInv st → forEach processHeader headers st = Return st' →
  headerInv st'
  ∧ (∀ k o, offers st k o → offers st' k o)
  ∧ (∀ header, header ∈ headers →
       isLinkHeader (trim (toLowerCase header)) = false →
       ∀ group1 group2, matchHeader header = Some (group1, group2) →
         offers st' (categoryIdOf (trim group1)) (trim group2)).
Proof.
  revert st. induction headers as [|h rest IH]; intros st Hinv Hrun.
  - simpl in Hrun. injection Hrun as <-. split; [done |]. split; [done |].
    by intros header Hin%elem_of_nil.
  - apply forEach_cons in Hrun as (st1 & Hstep & Hrest).
    destruct (processHeader_spec st st1 h Hinv Hstep) as (Hinv1 & Hmono1 & Hown).
    destruct (IH st1 Hinv1 Hrest) as (Hinv' & Hmono & Hall).
    split; [done |]. split; [by auto |].
    intros header [-> | Hin]%elem_of_cons Hlink g1 g2 Hmatch.
    + apply Hmono. by apply Hown.
    + by eapply Hall.
Qed.

(** The array, read through the store, is the store itself. *)
Lemma omap_lookup_seq {A : Type} (prefix l : list A) :
  omap (fun address => (prefix ++ l)%list !! address) (seq (length prefix) (length l)) = l.
Proof.
  revert prefix. induction l as [|x l IH]; intros prefix; simpl; [done |].
  rewrite list_lookup_middle by done. f_equal.
  specialize (IH (prefix ++ [x])%list).
  rewrite length_app, Nat.add_1_r, <- app_assoc in IH. exact IH.
Qed.

Lemma resolveCategories_objects (st : HeaderState) :
  headerInv st → resolveCategories st = objects st.
Proof.
  intros Hinv. unfold resolveCategories. rewrite (inv_categories st Hinv).
  apply (omap_lookup_seq [] (objects st)).
Qed.

Lemma headerInv_ids_NoDup (st : HeaderState) :
  headerInv st → NoDup (map Category.id (resolveCategories st)).
Proof.
  intros Hinv. rewrite resolveCategories_objects by done.
  apply NoDup_alt. intros i j k Hi Hj.
  change (map Category.id (objects st)) with (Category.id <$> objects st) in Hi, Hj.
  rewrite list_lookup_fmap in Hi, Hj.
  destruct (objects st !! i) as [ci |] eqn:Eci; [| done].
  destruct (objects st !! j) as [cj |] eqn:Ecj; [| done].
  simpl in Hi, Hj. injection Hi as Hi. injection Hj as Hj.
  apply (inv_object_map st Hinv) in Eci, Ecj. congruence.
Qed.

Lemma offers_resolved (st : HeaderState) (k o : string) :
  headerInv st → offers st k o →
  ∃ c, c ∈ resolveCategories st ∧ Category.id c = k ∧ o ∈ Category.options c.
Proof.
  intros Hinv (address & c & Hk & Hc & Ho).
  rewrite resolveCategories_objects by done. exists c.
  split; [by eapply list_elem_of_lookup_2 |]. split; [| done].
  destruct (inv_map_object st Hinv _ _ Hk) as (c' & Hc' & Hid). congruence.
Qed.

Lemma getProperty_Inherited {A : Type} (obj : gmap string A) (key : string) :
  getProperty obj key = Inherited → includes objectPrototypeKeys key = true.
Proof.
  unfold getProperty. destruct (obj !! key); [done |].
  by destruct (includes objectPrototypeKeys key).
Qed.

(** On a safe header the loop body completes. *)
Lemma processHeader_completes (st : HeaderState) (header : string) :
  headerInv st → safeHeader header →
  ∃ st', processHeader st header = Return st' ∧ headerInv st'.
Proof.
  intros Hinv Hsafe.
  destruct (processHeader st header) as [st' |] eqn:Hrun.
  { exists st'. split; [done |]. by eapply processHeader_spec. }
  exfalso. revert Hrun. unfold processHeader, safeHeader in *.
  destruct (isLinkHeader (trim (toLowerCase header))); [done |].
  destruct (matchHeader header) as [[group1 group2] |]; [| done].
  specialize (Hsafe eq_refl group1 group2 eq_refl).
  destruct (getProperty (categoryMap st) (categoryIdOf (trim group1)))
    as [address | |] eqn:Hget.
  - rewrite Hget. apply getProperty_Own in Hget.
    destruct (inv_map_object st Hinv _ _ Hget) as (c & -> & _).
    by destruct (includes (Category.options c) (trim group2)).
  - apply getProperty_Inherited in Hget. congruence.
  - assert (Hmap : categoryMap (createCategory st (categoryIdOf (trim group1)) (trim group1))
                     !! categoryIdOf (trim group1) = Some (length (objects st)))
      by apply lookup_insert_eq.
    apply getProperty_Own in Hmap. rewrite Hmap.
    assert (objects (createCategory st (categoryIdOf (trim group1)) (trim group1))
              !! length (objects st)
            = Some (Category.mk (categoryIdOf (trim group1)) (trim group1) [])) as ->
      by (by apply list_lookup_middle).
    done.
Qed.

(** A header whose category name derives [constructor] stops the script. *)
Example constructor_header_throws :
  processHeader initialHeaderState "Constructor - Yes" = TypeError.
Proof. reflexivity. Qed.

End Headers.

(** ** The row loop *)

Section Rows.
Import JsString JsObject Csv CsvSpec.

Lemma processAttribute_attributes (method method' : Method) (header value : string) :
  attributesNoDup method → processAttribute method header value = Return method' →
  attributesNoDup method'.
Proof.
  intros Hnd. unfold processAttribute.
  destruct (matchHeader header) as [[group1 group2] |]; [| by intros [= <-]].
  set (categoryId := categoryIdOf (trim group1)).
  set (optionName := trim group2).
  set (attributes1 := match getProperty (attributes method) categoryId with
                      | Undefined => <[categoryId := []]> (attributes method)
                      | _ => attributes method
                      end).
  assert (Hnd1 : ∀ k values, attributes1 !! k = Some values → NoDup values).
  { subst attributes1. destruct (getProperty (attributes method) categoryId); try done.
    intros k values [[_ <-] | [_ Hk]]%lookup_insert_Some; [apply NoDup_nil_2 | by eapply Hnd]. }
  destruct (includes truthyValues value); [| by intros [= <-]].
  destruct (getProperty attributes1 categoryId) as [values | |] eqn:Hget; [| done | done].
  apply getProperty_Own in Hget.
  destruct (includes values optionName) eqn:Hincl; intros [= <-]; [done |].
  intros k vs. simpl. intros [[_ <-] | [_ Hk]]%lookup_insert_Some; [| by eapply Hnd1].
  unfold push. apply NoDup_app. split; [by eapply Hnd1 |]. split; [| apply NoDup_singleton].
  intros x Hx ->%list_elem_of_singleton.
  apply includes_false in Hincl. apply Hincl. by apply list_elem_of_In.
Qed.

Lemma processCell_attributes (method method' : Method) (column : string * string) :
  attributesNoDup method → processCell method column = Return method' →
  attributesNoDup method'.
Proof.
  intros Hnd. unfold processCell.
  repeat (case_match; try (by intros [= <-])).
  by apply processAttribute_attributes.
Qed.

Lemma processRow_attributes (headers : list string) (methods methods' : list Method)
    (line : string) :
  (∀ m, m ∈ methods → attributesNoDup m) →
  processRow headers methods line = Return methods' →
  ∀ m, m ∈ methods' → attributesNoDup m.
Proof.
  intros Hall. unfold processRow.
  destruct (split ";" line) as [|value0 values]; [done |].
  destruct (String.eqb (trim value0) ""); [by intros [= <-] |].
  destruct (forEach processCell _ _) as [method |] eqn:Hcells; [| done].
  simpl. intros [= <-] m [Hin | ->%list_elem_of_singleton]%elem_of_app; [by apply Hall |].
  assert (Hnd : attributesNoDup method).
  { eapply (forEach_invariant processCell attributesNoDup); [| | exact Hcells].
    - intros s item s'. apply processCell_attributes.
    - intros k vs Hk. simpl in Hk. by rewrite lookup_empty in Hk. }
  by case_match.
Qed.

Lemma rowLoop_attributes (headers rows : list string) (methods : list Method) :
  forEach (processRow headers) rows [] = Return methods →
  ∀ m, m ∈ methods → attributesNoDup m.
Proof.
  apply (forEach_invariant (processRow headers) (fun ms => ∀ m, m ∈ ms → attributesNoDup m)).
  - intros s item s'. apply processRow_attributes.
  - by intros m Hin%elem_of_nil.
Qed.

Lemma split_cons (sep : ascii) (s : string) :
  ∃ piece pieces, split sep s = piece :: pieces.
Proof.
  induction s as [|c s (piece & pieces & IH)]; simpl; [by eauto |].
  destruct (Ascii.eqb c sep); [by eauto |]. rewrite IH. by eauto.
Qed.

Lemma processAttribute_completes (method : Method) (header value : string) :
  isLinkHeader (trim (toLowerCase header)) = false → safeHeader header →
  ∃ method', processAttribute method header value = Return method'.
Proof.
  intros Hlink Hsafe. unfold processAttribute.
  destruct (matchHeader header) as [[group1 group2] |] eqn:Hmatch; [| by eauto].
  specialize (Hsafe Hlink group1 group2 Hmatch).
  destruct (getProperty (attributes method) (categoryIdOf (trim group1)))
    as [values | |] eqn:Hget.
  - rewrite Hget. by repeat case_match; eauto.
  - apply getProperty_Inherited in Hget. congruence.
  - assert (Hnew : getProperty (<[categoryIdOf (trim group1) := []]> (attributes method))
                     (categoryIdOf (trim group1)) = Own [])
      by (apply getProperty_Own, lookup_insert_eq).
    rewrite Hnew. by repeat case_match; eauto.
Qed.

Lemma processCell_completes (method : Method) (column : string * string) :
  safeHeader column.1 → ∃ method', processCell method column = Return method'.
Proof.
  intros Hsafe. unfold processCell.
  destruct (String.eqb (trim column.2) ""); [by eauto |].
  destruct (isLinkHeader (trim (toLowerCase column.1))) eqn:Hlink; [by eauto |].
  repeat (case_match; [by eauto |]).
  by apply processAttribute_completes.
Qed.

Lemma processRow_completes (headers : list string) (methods : list Method) (line : string) :
  (∀ header, header ∈ tail headers → safeHeader header) →
  ∃ methods', processRow headers methods line = Return methods'.
Proof.
  intros Hsafe. unfold processRow.
  destruct (split_cons ";" line) as (value0 & values & ->).
  destruct (String.eqb (trim value0) ""); [by eauto |].
  destruct (forEach_completes processCell (fun _ => True) (zip (tail headers) values))
    with (s := mkMethod (trim value0) "" ∅ None None None None None)
    as (method & -> & _); [| done | simpl; by eauto].
  intros m [header value] Hin _.
  destruct (processCell_completes m (header, value)) as (m' & Hm').
  - apply Hsafe. by eapply elem_of_zip_l.
  - by exists m'.
Qed.

End Rows.

(** ** The converted catalog *)

Section Catalog.
Import JsString JsObject Csv CsvSpec Samples.

(** What a completed run went through: a first line, the header loop and the
    row loop, each completed. *)
Lemma convert_Return (data : string) (catalog : Catalog) :
  convert data = Return catalog →
  ∃ line0 rows st methods,
    List.filter (fun line => negb (String.eqb line "")) (map trim (split "010" data))
      = line0 :: rows
    ∧ forEach processHeader (tail (split ";" line0)) initialHeaderState = Return st
    ∧ forEach (processRow (split ";" line0)) rows [] = Return methods
    ∧ catalog = mkCatalog (resolveCategories st) methods.
Proof.
  unfold convert.
  destruct (List.filter _ _) as [|line0 rows]; [done |].
  destruct (forEach processHeader _ _) as [st |] eqn:Hheaders; [| done]. simpl.
  destruct (forEach (processRow _) _ _) as [methods |] eqn:Hrows; [| done]. simpl.
  intros [= <-]. by exists line0, rows, st, methods.
Qed.

(** The script completes on every file that has a non-empty line and whose
    category headers all derive ids other than the inherited property names. *)
Lemma convert_completes (data line0 : string) (rows : list string) :
  List.filter (fun line => negb (String.eqb line "")) (map trim (split "010" data))
    = line0 :: rows →
  (∀ header, header ∈ tail (split ";" line0) → safeHeader header) →
  ∃ catalog, convert data = Return catalog.
Proof.
  intros Hlines Hsafe. unfold convert. rewrite Hlines.
  destruct (forEach_completes processHeader headerInv (tail (split ";" line0)))
    with (s := initialHeaderState) as (st & -> & _).
  { intros s header Hin Hinv. by apply processHeader_completes; [| apply Hsafe]. }
  { apply headerInv_initial. }
  simpl.
  destruct (forEach_completes (processRow (split ";" line0)) (fun _ => True) rows)
    with (s := @nil Method) as (methods & -> & _).
  { intros ms line _ _.
    destruct (processRow_completes (split ";" line0) ms line Hsafe) as (ms' & Hms').
    by exists ms'. }
  { done. }
  simpl. by eauto.
Qed.

(** An empty file stops the script: [lines[0]] is undefined. *)
Example empty_file_throws : convert "" = TypeError.
Proof. reflexivity. Qed.

(** C9. When the conversion completes, the ids of the output categories are
    pairwise distinct, and every category header of the file has been merged
    into the one category that carries its derived id: that category lists the
    header's option. *)
Theorem category_ids_unique (data : string) (catalog : Catalog) :
  convert data = Return catalog →
  NoDup (map Category.id (catalogCategories catalog))
  ∧ ∀ line0 rows header group1 group2,
      List.filter (fun line => negb (String.eqb line "")) (map trim (split "010" data))
        = line0 :: rows →
      header ∈ tail (split ";" line0) →
      isLinkHeader (trim (toLowerCase header)) = false →
      matchHeader header = Some (group1, group2) →
      ∃ c, c ∈ catalogCategories catalog
           ∧ Category.id c = categoryIdOf (trim group1)
           ∧ trim group2 ∈ Category.options c.
Proof.
  intros (line0 & rows & st & methods & Hlines & Hheaders & _ & ->)%convert_Return.
  destruct (headerLoop_spec _ _ _ headerInv_initial Hheaders) as (Hinv & _ & Hall).
  simpl. split; [by apply headerInv_ids_NoDup |].
  intros line0' rows' header group1 group2 Hlines' Hin Hlink Hmatch.
  rewrite Hlines in Hlines'. injection Hlines' as <- <-.
  apply offers_resolved; [done |]. by eapply Hall.
Qed.

Lemma category_ids_unique_witness :
  NoDup (map Category.id (catalogCategories sampleCatalog)).
Proof.
  apply (category_ids_unique sampleCsv sampleCatalog).
  by vm_compute.
Defined.

(** C10. When the conversion completes, no attribute list of an output method
    repeats a value, and no output category repeats an option. *)
Theorem attribute_values_unique (data : string) (catalog : Catalog) :
  convert data = Return catalog →
  (∀ m categoryId values,
      m ∈ catalogMethods catalog → attributes m !! categoryId = Some values →
      NoDup values)
  ∧ (∀ c, c ∈ catalogCategories catalog → NoDup (Category.options c)).
Proof.
  intros (line0 & rows & st & methods & _ & Hheaders & Hrows & ->)%convert_Return.
  simpl. split.
  - intros m categoryId values Hin Hlookup.
    by eapply (rowLoop_attributes _ _ _ Hrows m Hin).
  - destruct (headerLoop_spec _ _ _ headerInv_initial Hheaders) as (Hinv & _ & _).
    rewrite resolveCategories_objects by done.
    intros c (address & Hc)%list_elem_of_lookup_1. by eapply (inv_options st Hinv).
Qed.

Lemma attribute_values_unique_witness :
  (∀ m categoryId values,
      m ∈ catalogMethods sampleCatalog → attributes m !! categoryId = Some values →
      NoDup values)
  ∧ (∀ c, c ∈ catalogCategories sampleCatalog → NoDup (Category.options c)).
Proof.
  apply (attribute_values_unique sampleCsv sampleCatalog).
  by vm_compute.
Defined.

End Catalog.

(** ** Further properties of the semantic validator *)

Section MoreSemanticRules.
Import Semantic Samples.

Lemma semLevelMismatch_true (m : Method) (sel : UserSelections) :
  semLevelMismatch m sel = true
  ↔ ∃ chosen, sel !! "sem_level" = Some chosen
      ∧ default [] (attributes m !! "sem_level") ≠ []
      ∧ ∀ v, In v chosen → ¬ In v (default [] (attributes m !! "sem_level")).
Proof.
  unfold semLevelMismatch. destruct (sel !! "sem_level") as [chosen |].
  - rewrite andb_true_iff, negb_true_iff, some_false_disjoint. split.
    + intros [Hdisj Hlen]. exists chosen. split; [done |]. split; [| done].
      by destruct (default [] (attributes m !! "sem_level")).
    + intros (chosen' & [= <-] & Hne & Hdisj). split; [done |].
      by destruct (default [] (attributes m !! "sem_level")).
  - split; [done | by intros (chosen & ? & _)].
Qed.

Lemma digitalMismatch_true (m : Method) (sel : UserSelections) :
  digitalMismatch m sel = true ↔ In (name m) digitalMethods ∧ userTech sel = ["Low"].
Proof.
  unfold digitalMismatch. rewrite <- includes_In.
  destruct (includes digitalMethods (name m)).
  - rewrite includes_singleton. tauto.
  - split; [done | by intros [? _]].
Qed.

Lemma visibilityMismatch_true (m : Method) (sel : UserSelections) :
  visibilityMismatch m sel = true
  ↔ In (name m) visibilityMethods ∧ userCultural sel = ["High"].
Proof.
  unfold visibilityMismatch. rewrite <- includes_In.
  destruct (includes visibilityMethods (name m)).
  - rewrite includes_singleton. tauto.
  - split; [done | by intros [? _]].
Qed.

Lemma isSemanticMismatch_true (m : Method) (sel : UserSelections) :
  isSemanticMismatch m sel = true
  ↔ semLevelMismatch m sel = true
    ∨ (In (name m) digitalMethods ∧ userTech sel = ["Low"])
    ∨ (In (name m) visibilityMethods ∧ userCultural sel = ["High"]).
Proof.
  rewrite isSemanticMismatch_rules, !orb_true_iff.
  rewrite digitalMismatch_true, visibilityMismatch_true. tauto.
Qed.

(** X1. A selection that has no [sem_level] key, whose technology selection
    is not exactly [["Low"]] and whose cultural selection is not exactly
    [["High"]] excludes no method at all. *)
Theorem no_extreme_filter_no_mismatch (m : Method) (sel : UserSelections) :
  sel !! "sem_level" = None →
  userTech sel ≠ ["Low"] → userCultural sel ≠ ["High"] →
  isSemanticMismatch m sel = false.
Proof.
  intros Hlevel Htech Hcult. apply not_true_is_false.
  rewrite isSemanticMismatch_true, semLevelMismatch_true.
  intros [(chosen & Hsome & _) | [[_ H] | [_ H]]]; congruence.
Qed.

Lemma no_extreme_filter_no_mismatch_witness :
  isSemanticMismatch participatoryVideo ∅ = false.
Proof.
  apply (no_extreme_filter_no_mismatch participatoryVideo ∅).
  - reflexivity.
  - discriminate.
  - discriminate.
Defined.

(** X2. A method that is named in neither allow-list and declares no SEM
    level is excluded by no selection whatever. *)
Theorem unlisted_method_without_levels_never_excluded (m : Method) (sel : UserSelections) :
  ¬ In (name m) digitalMethods → ¬ In (name m) visibilityMethods →
  default [] (attributes m !! "sem_level") = [] →
  isSemanticMismatch m sel = false.
Proof.
  intros Hd Hv Hnone. apply not_true_is_false.
  rewrite isSemanticMismatch_true, semLevelMismatch_true.
  intros [(chosen & _ & Hne & _) | [[H _] | [H _]]]; done.
Qed.

Lemma unlisted_method_without_levels_never_excluded_witness :
  isSemanticMismatch (method_of "Key Informant Interviews" ∅) onlyIndividual = false.
Proof.
  apply (unlisted_method_without_levels_never_excluded
           (method_of "Key Informant Interviews" ∅) onlyIndividual).
  - simpl. intros H. by repeat destruct H as [H | H].
  - simpl. intros H. by repeat destruct H as [H | H].
  - reflexivity.
Defined.

(** X3. A method that shares a level with the selection passes the level
    rule; when it is named in neither allow-list it is no semantic mismatch. *)
Theorem shared_level_passes_level_rule (m : Method) (sel : UserSelections)
    (chosen : list string) (v : string) :
  sel !! "sem_level" = Some chosen →
  In v chosen → In v (default [] (attributes m !! "sem_level")) →
  semLevelMismatch m sel = false
  ∧ (¬ In (name m) digitalMethods → ¬ In (name m) visibilityMethods →
     isSemanticMismatch m sel = false).
Proof.
  intros Hsel Hc Hd.
  assert (Hrule : semLevelMismatch m sel = false).
  { apply not_true_is_false. rewrite semLevelMismatch_true.
    intros (chosen' & Hsel' & _ & Hdisj). rewrite Hsel in Hsel'.
    injection Hsel' as <-. by apply (Hdisj v). }
  split; [done |]. intros Hnd Hnv. apply not_true_is_false.
  rewrite isSemanticMismatch_true. intros [H | [[H _] | [H _]]]; congruence.
Qed.

Lemma shared_level_passes_level_rule_witness :
  semLevelMismatch interviews onlyIndividual = false.
Proof.
  apply (proj1 (shared_level_passes_level_rule interviews onlyIndividual
                  ["Individual"] "Individual" eq_refl (or_introl eq_refl)
                  (or_introl eq_refl))).
Defined.

(** X4. The verdict reads nothing of a method but its name and its
    [sem_level] attribute: two methods that agree on both get the same verdict
    under every selection, whatever else the catalog says about them. *)
Theorem verdict_reads_name_and_levels_only (m1 m2 : Method) (sel : UserSelections) :
  name m1 = name m2 →
  attributes m1 !! "sem_level" = attributes m2 !! "sem_level" →
  isSemanticMismatch m1 sel = isSemanticMismatch m2 sel.
Proof.
  intros Hname Hlevels.
  unfold isSemanticMismatch, semLevelMismatch, digitalMismatch, visibilityMismatch.
  by rewrite Hname, Hlevels.
Qed.

(** Correcting the technology data of Participatory Video does not change
    its verdict. *)
Lemma verdict_reads_name_and_levels_only_witness :
  isSemanticMismatch participatoryVideo onlyLowTech
  = isSemanticMismatch
      (method_of "Participatory Video/Digital Storytelling"
         {[ "participants_access_to_technology_eg_phones_internet" := ["High"] ]})
      onlyLowTech.
Proof.
  apply (verdict_reads_name_and_levels_only participatoryVideo).
  - reflexivity.
  - reflexivity.
Defined.

(** X5. The verdict reads nothing of a selection but three of its keys. *)
Theorem verdict_reads_three_keys_only (m : Method) (sel1 sel2 : UserSelections) :
  sel1 !! "sem_level" = sel2 !! "sem_level" →
  userTech sel1 = userTech sel2 → userCultural sel1 = userCultural sel2 →
  isSemanticMismatch m sel1 = isSemanticMismatch m sel2.
Proof.
  intros Hlevel Htech Hcult.
  unfold isSemanticMismatch, semLevelMismatch, digitalMismatch, visibilityMismatch.
  by rewrite Hlevel, Htech, Hcult.
Qed.

Lemma verdict_reads_three_keys_only_witness :
  isSemanticMismatch administrativeData onlyIndividual
  = isSemanticMismatch administrativeData (<[ "resources" := ["Low"] ]> onlyIndividual).
Proof.
  apply (verdict_reads_three_keys_only administrativeData).
  - reflexivity.
  - reflexivity.
  - reflexivity.
Defined.

(** X6. Whatever the Phase 2 check skips, [isSemanticMismatch] excludes: a
    skip by the inline check implies that rule 1 fires, for every content of
    [userFilterSelections]. *)
Theorem phase2_skip_implies_mismatch (ufs : list string) (m : Method)
    (sel : UserSelections) :
  phase2SemLevelSkip ufs m sel = true →
  semLevelMismatch m sel = true ∧ isSemanticMismatch m sel = true.
Proof.
  intros Hskip.
  assert (Hrule : semLevelMismatch m sel = true).
  { revert Hskip. unfold phase2SemLevelSkip, semLevelMismatch.
    destruct (includes ufs "sem_level"); [| done].
    destruct (sel !! "sem_level") as [chosen |]; simpl; [| done].
    destruct (0 <? length chosen)%nat; simpl; [| done].
    destruct (0 <? length (default [] (attributes m !! "sem_level")))%nat; [| done].
    intros ->. done. }
  split; [done |]. rewrite isSemanticMismatch_true. by left.
Qed.

Lemma phase2_skip_implies_mismatch_witness :
  semLevelMismatch administrativeData onlyIndividual = true
  ∧ isSemanticMismatch administrativeData onlyIndividual = true.
Proof.
  apply (phase2_skip_implies_mismatch ["sem_level"] administrativeData onlyIndividual).
  reflexivity.
Defined.

End MoreSemanticRules.

(** ** Further properties of the tier classification *)

Section MoreTiers.
Import Semantic Tiers TierSpec Samples.





End MoreTiers.

(** ** Further properties of the string helpers *)

Section MoreStrings.
Import JsString Text.

Lemma append_cons (c : ascii) (s t : string) : String c s +:+ t = String c (s +:+ t).
Proof. reflexivity. Qed.

Lemma append_nil_l (s : string) : "" +:+ s = s.
Proof. reflexivity. Qed.

Lemma append_nil_r (s : string) : s +:+ "" = s.
Proof. induction s as [|c s IH]; [done |]. by rewrite append_cons, IH. Qed.

Lemma append_assoc (s t u : string) : (s +:+ t) +:+ u = s +:+ t +:+ u.
Proof. induction s as [|c s IH]; [done |]. by rewrite !append_cons, IH. Qed.

Lemma strHas_append (c : ascii) (s t : string) :
  strHas c (s +:+ t) = strHas c s || strHas c t.
Proof.
  induction s as [|d s IH]; [done |].
  rewrite append_cons. simpl. by rewrite IH, orb_assoc.
Qed.

Lemma strForall_append (p : ascii → bool) (s t : string) :
  strForall p (s +:+ t) = strForall p s && strForall p t.
Proof.
  induction s as [|d s IH]; [done |].
  rewrite append_cons. simpl. by rewrite IH, andb_assoc.
Qed.

Lemma matchOptionGroup_sound (s g : string) :
  matchOptionGroup s = Some g →
  ∃ w, s = w +:+ g ∧ strForall isWhiteSpace w = true ∧ g ≠ "" ∧ allDots g = true.
Proof.
  revert g. induction s as [|c s IH]; intros g; simpl; [done |].
  destruct (isWhiteSpace c) eqn:Hc.
  - destruct (matchOptionGroup s) as [g' |].
    + intros [= <-]. destruct (IH g' eq_refl) as (w & -> & Hw & Hne & Hdots).
      exists (String c w). simpl. by rewrite Hc, Hw.
    + destruct (negb (isLineTerminator c) && allDots s) eqn:Hdots; [| done].
      intros [= <-]. by exists "".
  - destruct (negb (isLineTerminator c) && allDots s) eqn:Hdots; [| done].
    intros [= <-]. by exists "".
Qed.

Lemma matchDashRest_sound (s g : string) :
  matchDashRest s = Some g →
  ∃ w1 w2, s = w1 +:+ "-" +:+ w2 +:+ g
    ∧ strForall isWhiteSpace w1 = true ∧ strForall isWhiteSpace w2 = true
    ∧ g ≠ "" ∧ allDots g = true.
Proof.
  revert g. induction s as [|c s IH]; intros g; simpl; [done |].
  destruct (Ascii.eqb_spec c "-") as [-> | Hdash].
  - intros (w & -> & Hw & Hne & Hdots)%matchOptionGroup_sound.
    by exists "", w.
  - destruct (isWhiteSpace c) eqn:Hc; [| done].
    intros (w1 & w2 & -> & Hw1 & Hw2 & Hne & Hdots)%IH.
    exists (String c w1), w2. simpl. by rewrite Hc, Hw1.
Qed.

Lemma matchAfterPrefix_sound (prefix s g1 g2 : string) :
  matchAfterPrefix prefix s = Some (g1, g2) →
  ∃ x w1 w2, g1 = prefix +:+ x ∧ s = x +:+ w1 +:+ "-" +:+ w2 +:+ g2
    ∧ allDots x = true
    ∧ strForall isWhiteSpace w1 = true ∧ strForall isWhiteSpace w2 = true
    ∧ g2 ≠ "" ∧ allDots g2 = true.
Proof.
  revert prefix. induction s as [|c s IH]; intros prefix.
  - simpl. done.
  - change (matchAfterPrefix prefix (String c s)) with
      (match matchDashRest (String c s) with
       | Some g => Some (prefix, g)
       | None => if isLineTerminator c then None
                 else matchAfterPrefix (prefix +:+ String c EmptyString) s
       end).
    destruct (matchDashRest (String c s)) as [g |] eqn:Hrest.
    + intros [= <- <-].
      apply matchDashRest_sound in Hrest as (w1 & w2 & Hs & Hw1 & Hw2 & Hne & Hdots).
      exists "", w1, w2. by rewrite append_nil_r.
    + destruct (isLineTerminator c) eqn:Hc; [done |].
      intros (x & w1 & w2 & -> & -> & Hx & Hw1 & Hw2 & Hne & Hdots)%IH.
      exists (String c x), w1, w2. rewrite append_assoc. simpl. by rewrite Hc, Hx.
Qed.

Lemma matchHeader_sound (header g1 g2 : string) :
  matchHeader header = Some (g1, g2) →
  ∃ w1 w2, header = g1 +:+ w1 +:+ "-" +:+ w2 +:+ g2
    ∧ strForall isWhiteSpace w1 = true ∧ strForall isWhiteSpace w2 = true
    ∧ g1 ≠ "" ∧ allDots g1 = true ∧ g2 ≠ "" ∧ allDots g2 = true.
Proof.
  destruct header as [|c s]; simpl; [done |].
  destruct (isLineTerminator c) eqn:Hc; [done |].
  intros (x & w1 & w2 & -> & -> & Hx & Hw1 & Hw2 & Hne & Hdots)%matchAfterPrefix_sound.
  exists w1, w2. rewrite !append_cons, !append_nil_l. simpl. by rewrite Hc, Hx.
Qed.

(** X9. What the header pattern captures is a real decomposition: the header
    is the first group, white space, a dash, white space and the second group;
    both groups are non-empty and free of line terminators.  A header without
    a dash is no category header. *)
Theorem header_match_decomposes (header : string) :
  (∀ g1 g2, matchHeader header = Some (g1, g2) →
     ∃ w1 w2, header = g1 +:+ w1 +:+ "-" +:+ w2 +:+ g2
       ∧ strForall isWhiteSpace w1 = true ∧ strForall isWhiteSpace w2 = true
       ∧ g1 ≠ "" ∧ allDots g1 = true ∧ g2 ≠ "" ∧ allDots g2 = true)
  ∧ (strHas "-" header = false → matchHeader header = None).
Proof.
  split; [apply matchHeader_sound |].
  intros Hnodash. destruct (matchHeader header) as [[g1 g2] |] eqn:Hmatch; [| done].
  apply matchHeader_sound in Hmatch as (w1 & w2 & -> & _).
  rewrite !strHas_append in Hnodash. simpl in Hnodash.
  by rewrite !orb_true_r in Hnodash.
Qed.

Lemma header_match_decomposes_witness :
  ∃ w1 w2, "SEM  Level-Individual" = "SEM  Level" +:+ w1 +:+ "-" +:+ w2 +:+ "Individual"
    ∧ strForall isWhiteSpace w1 = true ∧ strForall isWhiteSpace w2 = true
    ∧ "SEM  Level" ≠ "" ∧ allDots "SEM  Level" = true
    ∧ "Individual" ≠ "" ∧ allDots "Individual" = true.
Proof.
  apply (proj1 (header_match_decomposes "SEM  Level-Individual")).
  reflexivity.
Defined.

End MoreStrings.

(** ** Special columns and category columns *)

Section SpecialColumns.
Import JsString Text Csv CsvFacts Samples.

Lemma eqb_whitespace_other (c d : ascii) :
  isWhiteSpace d = true → isWhiteSpace c = false → Ascii.eqb d c = false.
Proof.
  intros Hd Hc. destruct (Ascii.eqb_spec d c) as [-> | _]; [congruence | done].
Qed.

Lemma strHas_trimStart (c : ascii) (s : string) :
  isWhiteSpace c = false → strHas c (trimStart s) = strHas c s.
Proof.
  intros Hc. induction s as [|d s IH]; simpl; [done |].
  destruct (isWhiteSpace d) eqn:Hd; [| done].
  by rewrite IH, (eqb_whitespace_other c d).
Qed.

Lemma strHas_trimEnd (c : ascii) (s : string) :
  isWhiteSpace c = false → strHas c (trimEnd s) = strHas c s.
Proof.
  intros Hc. induction s as [|d s IH]; simpl; [done |].
  destruct (trimEnd s) as [|e t] eqn:Ht.
  - simpl in IH. rewrite <- IH.
    destruct (isWhiteSpace d) eqn:Hd; simpl; [| done].
    by rewrite (eqb_whitespace_other c d).
  - change (strHas c (String d (String e t))) with (Ascii.eqb d c || strHas c (String e t)).
    by rewrite IH.
Qed.

Lemma strHas_trim (c : ascii) (s : string) :
  isWhiteSpace c = false → strHas c (trim s) = strHas c s.
Proof. intros Hc. unfold trim. by rewrite strHas_trimEnd, strHas_trimStart. Qed.

Lemma strHas_dash_toLowerCase (s : string) :
  strHas "-" s = true → strHas "-" (toLowerCase s) = true.
Proof.
  induction s as [|d s IH]; simpl; [done |].
  intros [Hd | Hs]%orb_true_iff.
  - apply Ascii.eqb_eq in Hd as ->. done.
  - rewrite IH by done. apply orb_true_r.
Qed.

Lemma special_header_has_no_dash (headerLower : string) :
  isSpecialHeader headerLower = true → strHas "-" headerLower = false.
Proof.
  unfold isSpecialHeader, isLinkHeader. rewrite !orb_true_iff, !String.eqb_eq.
  intros [[[[[[[-> | ->] | ->] | ->] | ->] | ->] | ->] | ->]; reflexivity.
Qed.

Lemma category_header_not_special (header g1 g2 : string) :
  matchHeader header = Some (g1, g2) →
  isSpecialHeader (trim (toLowerCase header)) = false.
Proof.
  intros Hmatch. apply not_true_is_false. intros Hspecial%special_header_has_no_dash.
  rewrite strHas_trim in Hspecial by done.
  rewrite strHas_dash_toLowerCase in Hspecial; [done |].
  apply matchHeader_sound in Hmatch as (w1 & w2 & -> & _).
  rewrite !strHas_append. simpl. by rewrite !orb_true_r.
Qed.

Lemma processCell_not_special (method : Method) (header cell : string) :
  isSpecialHeader (trim (toLowerCase header)) = false → trim cell ≠ "" →
  processCell method (header, cell) = processAttribute method header (trim cell).
Proof.
  unfold isSpecialHeader. rewrite !orb_false_iff.
  intros [[[[[Hlink H2] Hcost] Hconn] Htype] Hdesc] Hcell.
  unfold processCell. simpl.
  destruct (String.eqb_spec (trim cell) "") as [Heq | _]; [done |].
  by rewrite Hlink, H2, Hcost, Hconn, Htype, Hdesc.
Qed.

(** X10. A header of the form [Category - Option] is never taken for one of
    the special columns (link, url, reference, link2, cost tier, connectivity,
    type, description): the header loop does not skip it, and the row loop
    hands every non-empty cell under it to the category-option branch. *)
Theorem category_header_is_not_special (header g1 g2 : string) :
  matchHeader header = Some (g1, g2) →
  isSpecialHeader (trim (toLowerCase header)) = false
  ∧ isLinkHeader (trim (toLowerCase header)) = false
  ∧ ∀ method cell, trim cell ≠ "" →
      processCell method (header, cell) = processAttribute method header (trim cell).
Proof.
  intros Hspecial%category_header_not_special.
  split; [done |]. split.
  - unfold isSpecialHeader in Hspecial. rewrite !orb_false_iff in Hspecial. tauto.
  - intros method cell Hcell. by apply processCell_not_special.
Qed.

Lemma category_header_is_not_special_witness :
  isSpecialHeader (trim (toLowerCase "Type - Qualitative")) = false.
Proof.
  apply (category_header_is_not_special "Type - Qualitative" "Type" "Qualitative").
  reflexivity.
Defined.

End SpecialColumns.

(** ** Where a method of the catalog comes from *)

Section MethodOrigin.
Import JsString JsObject Text Csv CsvSpec CsvFacts Samples.

Lemma forEach_invariant_in {S A : Type} (body : S → A → result S) (P : S → Prop)
    (items : list A) :
  (∀ s item s', item ∈ items → P s → body s item = Return s' → P s') →
  ∀ s s', P s → forEach body items s = Return s' → P s'.
Proof.
  induction items as [|item rest IH]; intros Hstep s s' HP Hrun.
  - simpl in Hrun. by injection Hrun as <-.
  - apply forEach_cons in Hrun as (s1 & Hbody & Hrest).
    apply (IH (fun s0 item0 s0' Hin => Hstep s0 item0 s0' (list_elem_of_further _ _ _ Hin))
              s1 s'); [| done].
    eapply Hstep; [by left | done | done].
Qed.

Lemma forEach_app {S A : Type} (body : S → A → result S) (items1 items2 : list A)
    (s s' : S) :
  forEach body (items1 ++ items2) s = Return s'
  ↔ ∃ s1, forEach body items1 s = Return s1 ∧ forEach body items2 s1 = Return s'.
Proof.
  revert s. induction items1 as [|item rest IH]; intros s.
  - simpl. split; [by exists s | by intros (s1 & [= <-] & ?)].
  - change ((item :: rest) ++ items2)%list with (item :: (rest ++ items2))%list.
    rewrite !forEach_cons. split.
    + intros (s1 & Hbody & (s2 & Hrest & Hrun)%IH). exists s2. split; [| done].
      apply forEach_cons. by exists s1.
    + intros (s2 & (s1 & Hbody & Hrest)%forEach_cons & Hrun).
      exists s1. split; [done |]. apply IH. by exists s2.
Qed.

(** The category-option branch touches nothing but the attributes. *)
Lemma processAttribute_cases (method method' : Method) (header value : string) :
  processAttribute method header value = Return method' →
  ∃ attrs, method' = withAttributes method attrs.
Proof.
  unfold processAttribute. intros Hrun.
  repeat case_match; simplify_eq; try by eauto.
  exists (attributes method'). by destruct method'.
Qed.

(** The branches of the column loop. *)
Lemma processCell_cases (method method' : Method) (header cell : string) :
  processCell method (header, cell) = Return method' →
  method' = method
  ∨ (∃ url, normalizeLink (trim cell) = Some url
       ∧ (method' = withLink method url ∨ method' = withLink2 method url))
  ∨ (isPresent (trim cell) = true
       ∧ (method' = withCostTier method (trim cell)
          ∨ method' = withConnectivity method (trim cell)
          ∨ method' = withType method (trim cell)
          ∨ method' = withDescription method (trim cell)))
  ∨ (isSpecialHeader (trim (toLowerCase header)) = false ∧ trim cell ≠ ""
       ∧ processAttribute method header (trim cell) = Return method').
Proof.
  unfold processCell. simpl.
  destruct (String.eqb_spec (trim cell) "") as [Hempty | Hcell]; [by intros [= <-]; left |].
  destruct (isLinkHeader (trim (toLowerCase header))) eqn:Hlink.
  { intros [= <-]. destruct (normalizeLink (trim cell)) as [url |]; [| by left].
    right. left. exists url. by split; [| left]. }
  destruct (String.eqb (trim (toLowerCase header)) "link2") eqn:H2.
  { intros [= <-]. destruct (normalizeLink (trim cell)) as [url |]; [| by left].
    right. left. exists url. by split; [| right]. }
  destruct (String.eqb (trim (toLowerCase header)) "cost tier") eqn:Hcost.
  { intros [= <-]. destruct (isPresent (trim cell)) eqn:Hp; [| by left].
    right. right. left. split; [done |]. by left. }
  destruct (String.eqb (trim (toLowerCase header)) "connectivity") eqn:Hconn.
  { intros [= <-]. destruct (isPresent (trim cell)) eqn:Hp; [| by left].
    right. right. left. split; [done |]. right. by left. }
  destruct (String.eqb (trim (toLowerCase header)) "type") eqn:Htype.
  { intros [= <-]. destruct (isPresent (trim cell)) eqn:Hp; [| by left].
    right. right. left. split; [done |]. right. right. by left. }
  destruct (String.eqb (trim (toLowerCase header)) "description") eqn:Hdesc.
  { intros [= <-]. destruct (isPresent (trim cell)) eqn:Hp; simpl; [| by left].
    destruct (negb (String.eqb (trim (trim cell)) "")); [| by left].
    right. right. left. split; [done |]. right. right. by right. }
  intros Hrun. right. right. right. split; [| done].
  unfold isSpecialHeader. by rewrite Hlink, H2, Hcost, Hconn, Htype, Hdesc.
Qed.

(** The branches of the line loop. *)
Lemma processRow_cases (headers : list string) (methods methods' : list Method)
    (line : string) :
  processRow headers methods line = Return methods' →
  methods' = methods
  ∨ ∃ value0 values m0,
      split ";" line = value0 :: values ∧ trim value0 ≠ ""
      ∧ forEach processCell (zip (tail headers) values)
          (mkMethod (trim value0) "" ∅ None None None None None) = Return m0
      ∧ methods' = (methods ++ [
          if String.eqb (description m0) "" || String.eqb (trim (description m0)) ""
          then withDescription m0 (defaultDescription (trim value0)) else m0 ])%list.
Proof.
  unfold processRow.
  destruct (split ";" line) as [|value0 values]; [done |].
  destruct (String.eqb_spec (trim value0) "") as [Hempty | Hname];
    [by intros [= <-]; left |].
  destruct (forEach processCell _ _) as [m0 |] eqn:Hcells; [| done].
  simpl. intros [= <-]. right. by exists value0, values, m0.
Qed.

Lemma rowLoop_origin (headers rows : list string) (methods : list Method) :
  forEach (processRow headers) rows [] = Return methods →
  ∀ m, m ∈ methods →
    ∃ line value0 values m0,
      line ∈ rows ∧ split ";" line = value0 :: values ∧ trim value0 ≠ ""
      ∧ forEach processCell (zip (tail headers) values)
          (mkMethod (trim value0) "" ∅ None None None None None) = Return m0
      ∧ m = (if String.eqb (description m0) "" || String.eqb (trim (description m0)) ""
             then withDescription m0 (defaultDescription (trim value0)) else m0).
Proof.
  apply (forEach_invariant_in (processRow headers) (fun ms => ∀ m, m ∈ ms → _) rows).
  - intros ms line ms' Hline IH Hrow m Hm.
    apply processRow_cases in Hrow as [-> | (value0 & values & m0 & Hsplit & Hname & Hcells & ->)];
      [by apply IH |].
    apply elem_of_app in Hm as [Hm | ->%list_elem_of_singleton]; [by apply IH |].
    by exists line, value0, values, m0.
  - by intros m Hm%elem_of_nil.
Qed.

(** Every method of the output was built from one data line: the cells of the
    line were processed in column order from a fresh method, and the
    description was defaulted at the end. *)
Lemma catalog_method_origin (data : string) (catalog : Catalog) :
  convert data = Return catalog →
  ∃ line0 rows,
    fileLines data = line0 :: rows
    ∧ ∀ m, m ∈ catalogMethods catalog →
        ∃ line value0 values m0,
          line ∈ rows ∧ split ";" line = value0 :: values ∧ trim value0 ≠ ""
          ∧ forEach processCell (zip (tail (split ";" line0)) values)
              (mkMethod (trim value0) "" ∅ None None None None None) = Return m0
          ∧ m = (if String.eqb (description m0) ""
                    || String.eqb (trim (description m0)) ""
                 then withDescription m0 (defaultDescription (trim value0)) else m0).
Proof.
  intros (line0 & rows & st & methods & Hlines & _ & Hrows & ->)%convert_Return.
  exists line0, rows. split; [done |]. simpl. by apply rowLoop_origin.
Qed.

(** A property of methods that holds of a fresh method, is kept by every cell
    and does not depend on the description holds of every output method. *)
Lemma catalog_methods_invariant (P : Method → Prop) (data : string) (catalog : Catalog) :
  (∀ n, n ≠ "" → P (mkMethod n "" ∅ None None None None None)) →
  (∀ m column m', P m → processCell m column = Return m' → P m') →
  (∀ m d, P m → P (withDescription m d)) →
  convert data = Return catalog →
  ∀ m, m ∈ catalogMethods catalog → P m.
Proof.
  intros Hfresh Hcell Hdesc (line0 & rows & _ & Horigin)%catalog_method_origin m Hm.
  destruct (Horigin m Hm) as (line & value0 & values & m0 & _ & _ & Hname & Hcells & ->).
  assert (P m0).
  { eapply (forEach_invariant processCell P); [exact Hcell | | exact Hcells].
    by apply Hfresh. }
  case_match; [by apply Hdesc | done].
Qed.

End MethodOrigin.

(** ** Names, descriptions, links and metadata of the output methods *)

Section MethodFields.
Import JsString JsObject Text Csv CsvSpec CsvFacts Samples.

Lemma processCell_name (m m' : Method) (column : string * string) :
  processCell m column = Return m' → name m' = name m.
Proof.
  destruct column as [header cell].
  intros [-> | [(url & _ & [-> | ->]) | [(_ & [-> | [-> | [-> | ->]]]) | (_ & _ & Hattr)]]]%processCell_cases;
    try done.
  by apply processAttribute_cases in Hattr as (attrs & ->).
Qed.

Lemma rowLoop_names (headers rows : list string) (acc methods : list Method) :
  forEach (processRow headers) rows acc = Return methods →
  map name methods
  = (map name acc
     ++ List.filter (fun n => negb (String.eqb n ""))
          (map (fun line => trim (hd "" (split ";" line))) rows))%list.
Proof.
  revert acc. induction rows as [|line rows IH]; intros acc Hrun.
  - simpl in Hrun. injection Hrun as <-. simpl. by rewrite app_nil_r.
  - apply forEach_cons in Hrun as (acc1 & Hrow & Hrest).
    rewrite (IH acc1 Hrest). simpl. unfold processRow in Hrow.
    destruct (split ";" line) as [|value0 values]; [done |]. simpl.
    destruct (String.eqb_spec (trim value0) "") as [Hblank | Hname]; simpl.
    + by injection Hrow as <-.
    + destruct (forEach processCell _ _) as [m0 |] eqn:Hcells; [| done].
      simpl in Hrow. injection Hrow as <-. unfold push.
      rewrite map_app, <- app_assoc. simpl. do 3 f_equal.
      assert (name m0 = trim value0) as <-.
      { eapply (forEach_invariant processCell (fun m => name m = trim value0));
          [| | exact Hcells]; [| done].
        intros s item s' <-. apply processCell_name. }
      by case_match.
Qed.

(** X11. The names of the output methods are the trimmed first cells of the
    data lines, in file order, the lines whose first cell is blank left out. *)
Theorem method_names_in_file_order (data line0 : string) (rows : list string)
    (catalog : Catalog) :
  convert data = Return catalog → fileLines data = line0 :: rows →
  map name (catalogMethods catalog)
  = List.filter (fun n => negb (String.eqb n ""))
      (map (fun line => trim (hd "" (split ";" line))) rows).
Proof.
  intros (line0' & rows' & st & methods & Hlines & _ & Hrows & ->)%convert_Return Hfile.
  unfold fileLines in Hfile. rewrite Hlines in Hfile. injection Hfile as -> ->.
  simpl. by rewrite (rowLoop_names _ _ _ _ Hrows).
Qed.

Lemma method_names_in_file_order_witness :
  map name (catalogMethods sampleCatalog) = ["Photovoice"; "Administrative Data"].
Proof.
  apply (method_names_in_file_order sampleCsv
           "Method;SEM Level - Individual;sem level - Community;SEM  Level-Individual;Link"
           ["Photovoice;x;yes;TRUE;www.example.org"; "Administrative Data;;no;;null"]
           sampleCatalog).
  - by vm_compute.
  - by vm_compute.
Defined.

Lemma trimEnd_nonblank (c : ascii) (s : string) :
  isWhiteSpace c = false → trimEnd (String c s) ≠ "".
Proof. intros Hc. simpl. destruct (trimEnd s); by rewrite ?Hc. Qed.

Lemma trim_of_trimmed_prefix (n suffix : string) :
  n ≠ "" → headTrimmed n → trim (n +:+ suffix) ≠ "".
Proof.
  destruct n as [|c n]; [done |]. intros _ Hc. simpl in Hc.
  rewrite append_cons. unfold trim. simpl. rewrite Hc. by apply trimEnd_nonblank.
Qed.

(** A column that leaves the description alone keeps it. *)
Lemma processCell_description_left (m m' : Method) (column : string * string) :
  leavesDescription column → processCell m column = Return m' →
  description m' = description m.
Proof.
  destruct column as [header cell]. unfold leavesDescription, processCell. simpl.
  intros Hleft.
  destruct (String.eqb_spec (trim cell) "") as [Hblank | Hcell]; [by intros [= <-] |].
  destruct (isLinkHeader (trim (toLowerCase header))).
  { intros [= <-]. by destruct (normalizeLink (trim cell)). }
  destruct (String.eqb (trim (toLowerCase header)) "link2").
  { intros [= <-]. by destruct (normalizeLink (trim cell)). }
  destruct (String.eqb (trim (toLowerCase header)) "cost tier").
  { intros [= <-]. by destruct (isPresent (trim cell)). }
  destruct (String.eqb (trim (toLowerCase header)) "connectivity").
  { intros [= <-]. by destruct (isPresent (trim cell)). }
  destruct (String.eqb (trim (toLowerCase header)) "type").
  { intros [= <-]. by destruct (isPresent (trim cell)). }
  destruct (String.eqb_spec (trim (toLowerCase header)) "description") as [Hdesc | _].
  { destruct (Hleft Hdesc) as [? | Hnull]; [done |]. rewrite Hnull. by intros [= <-]. }
  by intros (attrs & ->)%processAttribute_cases.
Qed.

(** A Description column with a present value sets the description. *)
Lemma processCell_description_set (m : Method) (header cell : string) :
  trim (toLowerCase header) = "description" → trim cell ≠ "" → trim cell ≠ "null" →
  processCell m (header, cell) = Return (withDescription m (trim cell)).
Proof.
  intros Hdesc Hcell Hnull. unfold processCell, isPresent. simpl.
  rewrite Hdesc, trim_idempotent.
  apply String.eqb_neq in Hcell, Hnull. by rewrite Hcell, Hnull.
Qed.

Lemma cells_description_left (columns : list (string * string)) (m m' : Method) :
  (∀ column, column ∈ columns → leavesDescription column) →
  forEach processCell columns m = Return m' → description m' = description m.
Proof.
  intros Hleft.
  apply (forEach_invariant_in processCell (fun s => description s = description m) columns);
    [| done].
  intros s column s' Hin <- Hcell.
  by apply (processCell_description_left s s' column); [apply Hleft |].
Qed.

(** X12. No output method has a blank description.  In a converted line, the
    value of the last Description cell that is neither blank nor [null]
    becomes the method's description, trimmed; when the line has no such cell
    the default text built from the method name stands in. *)
Theorem descriptions_never_blank :
  (∀ data catalog, convert data = Return catalog →
     ∀ m, m ∈ catalogMethods catalog →
       description m ≠ "" ∧ trim (description m) ≠ "")
  ∧ (∀ headers methods methods' line value0 values,
       processRow headers methods line = Return methods' →
       split ";" line = value0 :: values → trim value0 ≠ "" →
       ∃ m, methods' = (methods ++ [m])%list
         ∧ (∀ before header cell after,
              zip (tail headers) values = (before ++ (header, cell) :: after)%list →
              trim (toLowerCase header) = "description" →
              trim cell ≠ "" → trim cell ≠ "null" →
              (∀ column, column ∈ after → leavesDescription column) →
              description m = trim cell)
         ∧ ((∀ column, column ∈ zip (tail headers) values → leavesDescription column) →
            description m = defaultDescription (trim value0))).
Proof.
  split.
  - intros data catalog (line0 & rows & _ & Horigin)%catalog_method_origin m Hm.
    destruct (Horigin m Hm) as (line & value0 & values & m0 & _ & _ & Hname & _ & ->).
    destruct (String.eqb (description m0) "" || String.eqb (trim (description m0)) "")
      eqn:Hblank.
    + simpl. assert (Hdefault : trim (defaultDescription (trim value0)) ≠ "").
      { apply trim_of_trimmed_prefix; [done |].
        apply headTrimmed_trimEnd, headTrimmed_trimStart. }
      split; [| done]. intros Heq. by rewrite Heq in Hdefault.
    + apply orb_false_iff in Hblank as [H1 H2].
      by apply String.eqb_neq in H1, H2.
  - intros headers methods methods' line value0 values Hrow Hsplit Hname.
    unfold processRow in Hrow. rewrite Hsplit in Hrow.
    destruct (String.eqb_spec (trim value0) "") as [? | _]; [done |].
    destruct (forEach processCell _ _) as [m0 |] eqn:Hcells; [| done].
    simpl in Hrow. injection Hrow as <-. unfold push.
    eexists. split; [reflexivity |]. split.
    + intros before header cell after Hcolumns Hdesc Hcell Hnull Hafter.
      rewrite Hcolumns in Hcells.
      apply forEach_app in Hcells as (m1 & _ & (m2 & Hset & Hrest)%forEach_cons).
      rewrite processCell_description_set in Hset by done. injection Hset as <-.
      assert (Hm0 : description m0 = trim cell)
        by apply (cells_description_left after _ m0 Hafter Hrest).
      rewrite Hm0, trim_idempotent.
      apply String.eqb_neq in Hcell. by rewrite Hcell.
    + intros Hnone.
      assert (Hm0 : description m0 = "")
        by apply (cells_description_left _ _ m0 Hnone Hcells).
      by rewrite Hm0.
Qed.

(** A line with a Description cell keeps its trimmed value. *)
Lemma descriptions_never_blank_witness :
  ∃ m, [ mkMethod "Photovoice" "Girls take photos" {[ "level" := ["A"] ]}
           None None None None None ] = ([] ++ [m])%list
       ∧ description m = "Girls take photos".
Proof.
  destruct (proj2 descriptions_never_blank
              (split ";" "Method;Description;Level - A") []
              [ mkMethod "Photovoice" "Girls take photos" {[ "level" := ["A"] ]}
                  None None None None None ]
              "Photovoice; Girls take photos ;yes" "Photovoice"
              [" Girls take photos "; "yes"])
    as (m & Hm & Hkept & _).
  - by vm_compute.
  - reflexivity.
  - discriminate.
  - exists m. split; [exact Hm |].
    apply (Hkept [] "Description" " Girls take photos " [("Level - A", "yes")]).
    + reflexivity.
    + reflexivity.
    + by vm_compute.
    + by vm_compute.
    + intros column ->%list_elem_of_singleton Hdesc. by vm_compute in Hdesc.
Defined.

Lemma normalizeLink_protocol_out (value url : string) :
  normalizeLink value = Some url →
  startsWith url "http://" = true ∨ startsWith url "https://" = true.
Proof.
  unfold normalizeLink.
  destruct (negb (String.eqb value "") && negb (String.eqb value "null")
            && negb (String.eqb (trim value) "")); [| done].
  destruct (startsWith value "www.") eqn:Hwww.
  - rewrite orb_true_r. intros [= <-]. right. apply (startsWith_app "https://").
  - rewrite orb_false_r.
    destruct (startsWith value "http://") eqn:Hhttp; simpl.
    + intros [= <-]. by left.
    + destruct (startsWith value "https://") eqn:Hhttps.
      * intros [= <-]. by right.
      * destruct (strIncludes value "." && negb (strIncludes value " ")); [| done].
        intros [= <-]. right. apply (startsWith_app "https://").
Qed.

(** X13. Whenever an output method has a [link] or a [link2], it starts with
    [http://] or [https://]. *)
Theorem links_have_protocol (data : string) (catalog : Catalog) :
  convert data = Return catalog →
  ∀ m, m ∈ catalogMethods catalog → hasProtocol (link m) ∧ hasProtocol (link2 m).
Proof.
  apply (catalog_methods_invariant (fun m => hasProtocol (link m) ∧ hasProtocol (link2 m))).
  - intros n _. by split.
  - intros m [header cell] m' [Hl Hl2].
    intros [-> | [(url & Hurl & [-> | ->]) | [(_ & [-> | [-> | [-> | ->]]]) | (_ & _ & Hattr)]]]%processCell_cases;
      try done.
    + split; [| done]. intros url' [= <-]. by eapply normalizeLink_protocol_out.
    + split; [done |]. intros url' [= <-]. by eapply normalizeLink_protocol_out.
    + by apply processAttribute_cases in Hattr as (attrs & ->).
  - by intros m d.
Qed.

Lemma links_have_protocol_witness :
  hasProtocol (link samplePhotovoice) ∧ hasProtocol (link2 samplePhotovoice).
Proof.
  apply (links_have_protocol sampleCsv sampleCatalog).
  - by vm_compute.
  - by left.
Defined.

Lemma isPresent_true (value : string) :
  isPresent value = true → presentOrAbsent (Some value).
Proof.
  unfold isPresent. intros [H1 H2]%andb_true_iff.
  apply negb_true_iff, String.eqb_neq in H1, H2. split; congruence.
Qed.

Lemma normalizeLink_present (value url : string) :
  normalizeLink value = Some url → presentOrAbsent (Some url).
Proof.
  intros Hurl%normalizeLink_protocol_out.
  split; intros [= ->]; by destruct Hurl.
Qed.

(** X14. No metadata field of an output method ([costTier], [connectivity],
    [type], [link], [link2]) holds the empty string or the placeholder [null]:
    such cells leave the field absent. *)
Theorem placeholder_never_stored (data : string) (catalog : Catalog) :
  convert data = Return catalog →
  ∀ m, m ∈ catalogMethods catalog →
    presentOrAbsent (costTier m) ∧ presentOrAbsent (connectivity m)
    ∧ presentOrAbsent (type m) ∧ presentOrAbsent (link m) ∧ presentOrAbsent (link2 m).
Proof.
  apply (catalog_methods_invariant
           (fun m => presentOrAbsent (costTier m) ∧ presentOrAbsent (connectivity m)
                     ∧ presentOrAbsent (type m) ∧ presentOrAbsent (link m)
                     ∧ presentOrAbsent (link2 m))).
  - intros n _. by repeat split.
  - intros m [header cell] m' (Hc & Hn & Ht & Hl & Hl2).
    intros [-> | [(url & Hurl%normalizeLink_present & [-> | ->])
                 | [(Hp%isPresent_true & [-> | [-> | [-> | ->]]]) | (_ & _ & Hattr)]]]%processCell_cases;
      try done.
    by apply processAttribute_cases in Hattr as (attrs & ->).
  - by intros m d.
Qed.

Lemma placeholder_never_stored_witness :
  presentOrAbsent (costTier samplePhotovoice)
  ∧ presentOrAbsent (connectivity samplePhotovoice)
  ∧ presentOrAbsent (type samplePhotovoice) ∧ presentOrAbsent (link samplePhotovoice)
  ∧ presentOrAbsent (link2 samplePhotovoice).
Proof.
  apply (placeholder_never_stored sampleCsv sampleCatalog).
  - by vm_compute.
  - by left.
Defined.

Lemma stored_links_not_empty (data : string) (catalog : Catalog) :
  convert data = Return catalog →
  ∀ m, m ∈ catalogMethods catalog → presentOrAbsent (link m).
Proof.
  apply (catalog_methods_invariant (fun m => presentOrAbsent (link m))).
  - intros n _. by split.
  - intros m [header cell] m' Hl.
    intros [-> | [(url & Hurl%normalizeLink_present & [-> | ->])
                 | [(_ & [-> | [-> | [-> | ->]]]) | (_ & _ & Hattr)]]]%processCell_cases;
      try done.
    by apply processAttribute_cases in Hattr as (attrs & ->).
  - by intros m d.
Qed.

(** X15. The figures the script prints after writing are settled in advance:
    the check that all methods have a name always succeeds, and the number of
    methods with links counts exactly the methods whose [link] is set. *)
Theorem printed_checks_hold (data : string) (catalog : Catalog) :
  convert data = Return catalog →
  allMethodsHaveName (catalogMethods catalog) = true
  ∧ methodsWithLinks (catalogMethods catalog)
    = length (List.filter (fun m => bool_decide (is_Some (link m)))
                (catalogMethods catalog)).
Proof.
  intros Hrun. split.
  - unfold allMethodsHaveName. apply forallb_forall. intros m Hm%list_elem_of_In.
    apply negb_true_iff, String.eqb_neq. revert m Hm.
    apply (catalog_methods_invariant (fun m => name m ≠ "") data catalog); [| | | done].
    + by intros n Hn.
    + intros m column m' Hm Hcell. by rewrite (processCell_name _ _ _ Hcell).
    + by intros m d.
  - unfold methodsWithLinks. f_equal. apply List.filter_ext_in.
    intros m Hm%list_elem_of_In.
    destruct (stored_links_not_empty data catalog Hrun m Hm) as [Hne _].
    destruct (link m) as [url |] eqn:Hlink; [| done].
    rewrite bool_decide_true by eauto.
    apply negb_true_iff, String.eqb_neq. congruence.
Qed.

Lemma printed_checks_hold_witness :
  allMethodsHaveName (catalogMethods sampleCatalog) = true
  ∧ methodsWithLinks (catalogMethods sampleCatalog)
    = length (List.filter (fun m => bool_decide (is_Some (link m)))
                (catalogMethods sampleCatalog)).
Proof.
  apply (printed_checks_hold sampleCsv sampleCatalog).
  by vm_compute.
Defined.

End MethodFields.

(** ** Attributes of the output methods *)

Section MethodAttributes.
Import JsString JsObject Text Csv CsvSpec CsvFacts Samples.

Lemma processAttribute_within (st : HeaderState) (m m' : Method) (header value : string) :
  (∀ g1 g2, matchHeader header = Some (g1, g2) →
     offers st (categoryIdOf (trim g1)) (trim g2)) →
  attributesWithin st m → processAttribute m header value = Return m' →
  attributesWithin st m'.
Proof.
  intros Hoffers Hwithin. unfold processAttribute.
  destruct (matchHeader header) as [[g1 g2] |]; [| by intros [= <-]].
  destruct (Hoffers g1 g2 eq_refl) as (address & c & Hk & Hc & Ho).
  set (categoryId := categoryIdOf (trim g1)) in *.
  set (attributes1 := match getProperty (attributes m) categoryId with
                      | Undefined => <[categoryId := []]> (attributes m)
                      | _ => attributes m
                      end).
  assert (Hwithin1 : ∀ k values, attributes1 !! k = Some values →
            ∃ address c, categoryMap st !! k = Some address
              ∧ objects st !! address = Some c
              ∧ ∀ v, v ∈ values → v ∈ Category.options c).
  { subst attributes1. destruct (getProperty (attributes m) categoryId); try done.
    intros k values [[<- <-] | [_ Hlookup]]%lookup_insert_Some; [| by apply Hwithin].
    exists address, c. split; [done |]. split; [done |]. by intros v Hv%elem_of_nil. }
  destruct (includes truthyValues value); [| by intros [= <-]].
  destruct (getProperty attributes1 categoryId) as [values | |] eqn:Hget; [| done | done].
  apply getProperty_Own in Hget.
  destruct (includes values (trim g2)); intros [= <-]; [done |].
  intros k values'. simpl.
  intros [[<- <-] | [_ Hlookup]]%lookup_insert_Some; [| by apply Hwithin1].
  destruct (Hwithin1 _ _ Hget) as (address' & c' & Hk' & Hc' & Hall).
  exists address', c'. split; [done |]. split; [done |].
  intros v [Hv | ->%list_elem_of_singleton]%elem_of_app; [by apply Hall |].
  congruence.
Qed.

(** X16. Every attribute of an output method refers to the output
    categories: its key is the id of one of them, and each listed value is one
    of that category's options. *)
Theorem attributes_within_categories (data : string) (catalog : Catalog) :
  convert data = Return catalog →
  ∀ m k values, m ∈ catalogMethods catalog → attributes m !! k = Some values →
    ∃ c, c ∈ catalogCategories catalog ∧ Category.id c = k
         ∧ ∀ v, v ∈ values → v ∈ Category.options c.
Proof.
  intros (line0 & rows & st & methods & _ & Hheaders & Hrows & ->)%convert_Return.
  destruct (headerLoop_spec _ _ _ headerInv_initial Hheaders) as (Hinv & _ & Hall).
  simpl. intros m k values Hm Hlookup.
  destruct (rowLoop_origin _ _ _ Hrows m Hm)
    as (line & value0 & cells & m0 & _ & _ & _ & Hcells & ->).
  assert (Hwithin : attributesWithin st m0).
  { eapply (forEach_invariant_in processCell (attributesWithin st)); [| | exact Hcells].
    - intros s [header cell] s' Hin%elem_of_zip_l Hs.
      intros [-> | [(url & _ & [-> | ->]) | [(_ & [-> | [-> | [-> | ->]]])
                 | (Hspecial & _ & Hattr)]]]%processCell_cases; try done.
      eapply processAttribute_within; [| done | done].
      intros g1 g2 Hmatch. eapply Hall; [done | | done].
      unfold isSpecialHeader in Hspecial. rewrite !orb_false_iff in Hspecial. tauto.
    - intros k' values' Hk'. simpl in Hk'. by rewrite lookup_empty in Hk'. }
  assert (Hattrs : attributes
            (if String.eqb (description m0) "" || String.eqb (trim (description m0)) ""
             then withDescription m0 (defaultDescription (trim value0)) else m0)
          = attributes m0) by (by case_match).
  rewrite Hattrs in Hlookup.
  destruct (Hwithin k values Hlookup) as (address & c & Hk & Hc & Hvalues).
  exists c. rewrite resolveCategories_objects by done.
  split; [by eapply list_elem_of_lookup_2 |]. split; [| done].
  destruct (inv_map_object st Hinv _ _ Hk) as (c' & Hc' & Hid). congruence.
Qed.

Lemma attributes_within_categories_witness :
  ∃ c, c ∈ catalogCategories sampleCatalog ∧ Category.id c = "sem_level"
       ∧ ∀ v, v ∈ ["Individual"; "Community"] → v ∈ Category.options c.
Proof.
  refine (attributes_within_categories sampleCsv sampleCatalog _
            samplePhotovoice "sem_level" ["Individual"; "Community"] _ _).
  - by vm_compute.
  - by left.
  - reflexivity.
Defined.

(** The category-option branch never drops a recorded value. *)
Lemma processAttribute_grows (m m' : Method) (header value k : string)
    (values : list string) :
  processAttribute m header value = Return m' → attributes m !! k = Some values →
  ∃ values', attributes m' !! k = Some values' ∧ ∀ v, v ∈ values → v ∈ values'.
Proof.
  unfold processAttribute. intros Hrun Hk.
  destruct (matchHeader header) as [[g1 g2] |]; [| injection Hrun as <-; by eauto].
  set (categoryId := categoryIdOf (trim g1)) in *.
  set (attributes1 := match getProperty (attributes m) categoryId with
                      | Undefined => <[categoryId := []]> (attributes m)
                      | _ => attributes m
                      end) in *.
  assert (Hk1 : attributes1 !! k = Some values).
  { subst attributes1.
    destruct (getProperty (attributes m) categoryId) eqn:Hget; try done.
    apply getProperty_Undefined in Hget. rewrite lookup_insert_ne; [done | congruence]. }
  destruct (includes truthyValues value); [| injection Hrun as <-; by eauto].
  destruct (getProperty attributes1 categoryId) as [old | |] eqn:Hget; [| done | done].
  apply getProperty_Own in Hget.
  destruct (includes old (trim g2)); injection Hrun as <-; [by eauto |]. simpl.
  destruct (decide (categoryId = k)) as [<- | Hne].
  - rewrite lookup_insert_eq. eexists. split; [done |].
    intros v Hv. apply elem_of_app. left. congruence.
  - rewrite lookup_insert_ne by done. by eauto.
Qed.

Lemma processCell_grows (m m' : Method) (column : string * string) (k : string)
    (values : list string) :
  processCell m column = Return m' → attributes m !! k = Some values →
  ∃ values', attributes m' !! k = Some values' ∧ ∀ v, v ∈ values → v ∈ values'.
Proof.
  destruct column as [header cell].
  intros [-> | [(url & _ & [-> | ->]) | [(_ & [-> | [-> | [-> | ->]]])
             | (_ & _ & Hattr)]]]%processCell_cases Hk; try by eauto.
  by eapply processAttribute_grows.
Qed.

Lemma cells_keep_option (columns : list (string * string)) (m m' : Method)
    (k v : string) :
  forEach processCell columns m = Return m' →
  (∃ values, attributes m !! k = Some values ∧ v ∈ values) →
  ∃ values, attributes m' !! k = Some values ∧ v ∈ values.
Proof.
  intros Hrun Hstart. revert Hstart Hrun.
  apply (forEach_invariant processCell
           (fun s => ∃ values, attributes s !! k = Some values ∧ v ∈ values)).
  intros s column s' (values & Hk & Hv) Hcell.
  destruct (processCell_grows _ _ _ _ _ Hcell Hk) as (values' & Hk' & Hsub).
  exists values'. split; [done | by apply Hsub].
Qed.

Lemma processAttribute_records (m m' : Method) (header value g1 g2 : string) :
  processAttribute m header value = Return m' →
  matchHeader header = Some (g1, g2) → includes truthyValues value = true →
  ∃ values, attributes m' !! categoryIdOf (trim g1) = Some values ∧ trim g2 ∈ values.
Proof.
  unfold processAttribute. intros Hrun Hmatch Htruthy. rewrite Hmatch, Htruthy in Hrun.
  destruct (getProperty _ (categoryIdOf (trim g1))) as [old | |] eqn:Hget in Hrun;
    [| done | done].
  apply getProperty_Own in Hget.
  destruct (includes old (trim g2)) eqn:Hincl; injection Hrun as <-; simpl.
  - exists old. split; [done |]. apply list_elem_of_In. by apply includes_In.
  - rewrite lookup_insert_eq. eexists. split; [done |].
    apply elem_of_app. right. by apply list_elem_of_singleton.
Qed.

(** X17. A truthy cell is recorded: when a line is converted, every cell
    under a category header that holds one of the accepted truthy spellings
    puts the header's option into the method's list for the header's
    category, and no later cell of the line takes it out. *)
Theorem truthy_cell_records_option (headers : list string) (methods methods' : list Method)
    (line value0 header cell g1 g2 : string) (values : list string) :
  processRow headers methods line = Return methods' →
  split ";" line = value0 :: values → trim value0 ≠ "" →
  (header, cell) ∈ zip (tail headers) values →
  matchHeader header = Some (g1, g2) →
  includes truthyValues (trim cell) = true →
  ∃ m options, methods' = (methods ++ [m])%list ∧ name m = trim value0
    ∧ attributes m !! categoryIdOf (trim g1) = Some options ∧ trim g2 ∈ options.
Proof.
  intros Hrow Hsplit Hname Hin Hmatch Htruthy.
  unfold processRow in Hrow. rewrite Hsplit in Hrow.
  destruct (String.eqb_spec (trim value0) "") as [? | _]; [done |].
  destruct (forEach processCell _ _) as [m0 |] eqn:Hcells; [| done].
  simpl in Hrow. injection Hrow as <-. unfold push.
  apply list_elem_of_split in Hin as (before & after & Hcolumns).
  rewrite Hcolumns in Hcells.
  apply forEach_app in Hcells as (m1 & Hbefore & Hrest).
  apply forEach_cons in Hrest as (m2 & Hcell & Hafter).
  assert (Hrecorded : ∃ options, attributes m2 !! categoryIdOf (trim g1) = Some options
                                 ∧ trim g2 ∈ options).
  { assert (Hspecial := category_header_not_special _ _ _ Hmatch).
    rewrite processCell_not_special in Hcell; [| done |].
    - by eapply processAttribute_records.
    - intros Hblank. by rewrite Hblank in Htruthy. }
  destruct (cells_keep_option _ _ _ _ _ Hafter Hrecorded) as (options & Hk & Hv).
  eexists _, options. split; [done |].
  assert (Hm0 : name m0 = trim value0).
  { assert (Hall : forEach processCell (zip (tail headers) values)
                     (mkMethod (trim value0) "" ∅ None None None None None) = Return m0).
    { rewrite Hcolumns. apply forEach_app. exists m1. split; [done |].
      apply forEach_cons. by exists m2. }
    eapply (forEach_invariant processCell (fun m => name m = trim value0));
      [| | exact Hall]; [| done].
    intros s item s' <-. apply processCell_name. }
  by case_match.
Qed.

Lemma truthy_cell_records_option_witness :
  ∃ m options,
    [ mkMethod "Photovoice"
        "Photovoice methodology for adolescent girl empowerment research"
        {[ "sem_level" := ["Individual"; "Community"] ]}
        (Some "https://www.example.org") None None None None ] = ([] ++ [m])%list
    ∧ name m = "Photovoice"
    ∧ attributes m !! "sem_level" = Some options ∧ "Community" ∈ options.
Proof.
  apply (truthy_cell_records_option
           (split ";" "Method;SEM Level - Individual;sem level - Community;Link") []
           _ "Photovoice;x;yes;www.example.org" "Photovoice"
           "sem level - Community" "yes" "sem level" "Community"
           ["x"; "yes"; "www.example.org"]).
  - by vm_compute.
  - reflexivity.
  - discriminate.
  - apply list_elem_of_In. vm_compute. right. by left.
  - reflexivity.
  - reflexivity.
Defined.

End MethodAttributes.

(** ** Processing the same header or the same cell again *)

Section Idempotence.
Import JsString JsObject Text Csv CsvSpec CsvFacts Samples.

Lemma processHeader_offered (st : HeaderState) (header : string) :
  (isLinkHeader (trim (toLowerCase header)) = false →
   ∀ g1 g2, matchHeader header = Some (g1, g2) →
     offers st (categoryIdOf (trim g1)) (trim g2)) →
  processHeader st header = Return st.
Proof.
  intros Hoffered. unfold processHeader.
  destruct (isLinkHeader (trim (toLowerCase header))); [done |].
  destruct (matchHeader header) as [[g1 g2] |]; [| done].
  destruct (Hoffered eq_refl g1 g2 eq_refl) as (address & c & Hk & Hc & Ho).
  apply getProperty_Own in Hk. rewrite Hk, Hk, Hc.
  apply list_elem_of_In, includes_In in Ho. by rewrite Ho.
Qed.

(** X18. A header column that repeats an earlier one changes nothing: once
    the header loop has run over a list of headers, processing any header of
    the list again leaves the categories, their options and the dictionary as
    they are. *)
Theorem repeated_header_changes_nothing (headers : list string) (st0 st : HeaderState)
    (header : string) :
  headerInv st0 → forEach processHeader headers st0 = Return st →
  header ∈ headers →
  processHeader st header = Return st.
Proof.
  intros Hinv Hrun Hin.
  destruct (headerLoop_spec headers st0 st Hinv Hrun) as (_ & _ & Hall).
  apply processHeader_offered. intros Hlink g1 g2 Hmatch. by eapply Hall.
Qed.

Lemma repeated_header_changes_nothing_witness :
  processHeader
    (mkHeaderState [Category.mk "sem_level" "SEM Level" ["Individual"]] [0]
       {[ "sem_level" := 0 ]})
    "SEM Level - Individual"
  = Return (mkHeaderState [Category.mk "sem_level" "SEM Level" ["Individual"]] [0]
              {[ "sem_level" := 0 ]}).
Proof.
  apply (repeated_header_changes_nothing ["SEM Level - Individual"] initialHeaderState).
  - apply headerInv_initial.
  - by vm_compute.
  - by left.
Defined.

Lemma getProperty_insert {A : Type} (obj : gmap string A) (key : string) (a : A) :
  getProperty (<[key := a]> obj) key = Own a.
Proof. apply getProperty_Own, lookup_insert_eq. Qed.

Lemma includes_push (arr : list string) (x : string) : includes (push arr x) x = true.
Proof. apply includes_In, in_or_app. right. by left. Qed.

Lemma processAttribute_idempotent (m m' : Method) (header value : string) :
  processAttribute m header value = Return m' →
  processAttribute m' header value = Return m'.
Proof.
  unfold processAttribute.
  destruct (matchHeader header) as [[g1 g2] |]; [| by intros [= <-]].
  set (categoryId := categoryIdOf (trim g1)).
  set (optionName := trim g2).
  destruct (getProperty (attributes m) categoryId) as [old | |] eqn:Hget.
  - (* the list exists *)
    rewrite Hget. destruct (includes truthyValues value).
    + destruct (includes old optionName) eqn:Hincl; intros [= <-]; simpl.
      * by rewrite Hget, Hget, Hincl.
      * by rewrite !getProperty_insert, includes_push.
    + intros [= <-]. simpl. by rewrite Hget.
  - (* an inherited property stands in the way *)
    rewrite Hget. destruct (includes truthyValues value); [done |].
    intros [= <-]. simpl. by rewrite Hget.
  - (* the list is created *)
    rewrite getProperty_insert. destruct (includes truthyValues value).
    + simpl. intros [= <-]. simpl.
      by rewrite !getProperty_insert, (includes_push [] optionName).
    + intros [= <-]. simpl. by rewrite getProperty_insert.
Qed.

(** X19. Processing a cell a second time changes nothing: whatever column a
    cell belongs to, running the column-loop body again on the method it
    produced returns that method. *)
Theorem repeated_cell_changes_nothing (m m' : Method) (column : string * string) :
  processCell m column = Return m' → processCell m' column = Return m'.
Proof.
  destruct column as [header cell]. unfold processCell. simpl.
  destruct (String.eqb (trim cell) ""); [by intros [= <-] |].
  destruct (isLinkHeader (trim (toLowerCase header))).
  { intros [= <-]. by destruct (normalizeLink (trim cell)). }
  destruct (String.eqb (trim (toLowerCase header)) "link2").
  { intros [= <-]. by destruct (normalizeLink (trim cell)). }
  destruct (String.eqb (trim (toLowerCase header)) "cost tier").
  { intros [= <-]. by destruct (isPresent (trim cell)). }
  destruct (String.eqb (trim (toLowerCase header)) "connectivity").
  { intros [= <-]. by destruct (isPresent (trim cell)). }
  destruct (String.eqb (trim (toLowerCase header)) "type").
  { intros [= <-]. by destruct (isPresent (trim cell)). }
  destruct (String.eqb (trim (toLowerCase header)) "description").
  { intros [= <-].
    by destruct (isPresent (trim cell) && negb (String.eqb (trim (trim cell)) "")). }
  apply processAttribute_idempotent.
Qed.

Lemma repeated_cell_changes_nothing_witness :
  processCell (withLink interviews "https://www.example.org") ("Link", "www.example.org")
  = Return (withLink interviews "https://www.example.org").
Proof.
  apply (repeated_cell_changes_nothing interviews).
  reflexivity.
Defined.

End Idempotence.

(** ** Shape of the output categories *)

Section CategoryShape.
Import JsString JsObject Text Csv CsvSpec CsvFacts Samples.

Lemma idChar_facts (c : ascii) :
  isIdChar c = true → lowerChar c = c ∧ isWhiteSpace c = false.
Proof. destruct c as [[] [] [] [] [] [] [] []]; vm_compute; by intros. Qed.

Lemma keepIdChars_idChars (s : string) : strForall isIdChar (keepIdChars s) = true.
Proof.
  induction s as [|c s IH]; simpl; [done |].
  destruct (isIdChar c) eqn:Hc; [| done]. simpl. by rewrite Hc, IH.
Qed.

Lemma idChars_toLowerCase (s : string) :
  strForall isIdChar s = true → toLowerCase s = s.
Proof.
  induction s as [|c s IH]; simpl; [done |].
  intros [Hc Hs]%andb_true_iff. rewrite IH by done.
  by destruct (idChar_facts c Hc) as [-> _].
Qed.

Lemma idChars_replaceSpaceRuns (s : string) :
  strForall isIdChar s = true → replaceSpaceRuns false s = s.
Proof.
  induction s as [|c s IH]; simpl; [done |].
  intros [Hc Hs]%andb_true_iff.
  destruct (idChar_facts c Hc) as [_ ->]. by rewrite IH.
Qed.

Lemma idChars_keepIdChars (s : string) :
  strForall isIdChar s = true → keepIdChars s = s.
Proof.
  induction s as [|c s IH]; simpl; [done |].
  intros [Hc Hs]%andb_true_iff. by rewrite Hc, IH.
Qed.

(** X20. A derived category id is made of the code units [a-z], [0-9] and
    [_] only, and deriving an id from an id gives the id back. *)
Theorem category_ids_are_stable (categoryName : string) :
  strForall isIdChar (categoryIdOf categoryName) = true
  ∧ categoryIdOf (categoryIdOf categoryName) = categoryIdOf categoryName.
Proof.
  assert (Hchars : strForall isIdChar (categoryIdOf categoryName) = true)
    by apply keepIdChars_idChars.
  split; [done |]. unfold categoryIdOf at 1.
  by rewrite idChars_toLowerCase, idChars_replaceSpaceRuns, idChars_keepIdChars.
Qed.

(** The two ways a category header changes the state. *)
Lemma processHeader_cases (st st' : HeaderState) (header : string) :
  headerInv st → processHeader st header = Return st' →
  st' = st
  ∨ ∃ g1 g2, matchHeader header = Some (g1, g2)
      ∧ ((∃ address c, objects st !! address = Some c
            ∧ st' = pushOption st address (trim g2))
         ∨ (categoryMap st !! categoryIdOf (trim g1) = None
            ∧ includes objectPrototypeKeys (categoryIdOf (trim g1)) = false
            ∧ st' = pushOption (createCategory st (categoryIdOf (trim g1)) (trim g1))
                      (length (objects st)) (trim g2))).
Proof.
  intros Hinv. unfold processHeader.
  destruct (isLinkHeader (trim (toLowerCase header))); [by intros [= <-]; left |].
  destruct (matchHeader header) as [[g1 g2] |]; [| by intros [= <-]; left].
  destruct (getProperty (categoryMap st) (categoryIdOf (trim g1)))
    as [address | |] eqn:Hget.
  - rewrite Hget. apply getProperty_Own in Hget.
    destruct (inv_map_object st Hinv _ _ Hget) as (c & Hc & _). rewrite Hc.
    destruct (includes (Category.options c) (trim g2)); intros [= <-]; [by left |].
    right. exists g1, g2. split; [done |]. left. by exists address, c.
  - by rewrite Hget.
  - assert (Hproto : includes objectPrototypeKeys (categoryIdOf (trim g1)) = false).
    { revert Hget. unfold getProperty.
      destruct (categoryMap st !! _); [done |].
      by destruct (includes objectPrototypeKeys _). }
    apply getProperty_Undefined in Hget.
    assert (getProperty (categoryMap (createCategory st (categoryIdOf (trim g1)) (trim g1)))
              (categoryIdOf (trim g1)) = Own (length (objects st))) as ->
      by apply getProperty_insert.
    assert (objects (createCategory st (categoryIdOf (trim g1)) (trim g1))
              !! length (objects st)
            = Some (Category.mk (categoryIdOf (trim g1)) (trim g1) [])) as ->
      by (by apply list_lookup_middle).
    simpl. intros [= <-]. right. exists g1, g2. split; [done |]. by right.
Qed.

Lemma pushOption_objects (P : Category.t → Prop) (st : HeaderState) (address : nat)
    (optionName : string) :
  (∀ c, P c → P (Category.mk (Category.id c) (Category.name c)
                   (push (Category.options c) optionName))) →
  (∀ a c, objects st !! a = Some c → P c) →
  ∀ a c, objects (pushOption st address optionName) !! a = Some c → P c.
Proof.
  intros Hpush Hall a c. unfold pushOption. simpl.
  rewrite list_lookup_alter. case_decide as Ha; [| by apply Hall].
  subst a. destruct (objects st !! address) as [c0 |] eqn:Hc0; [| done].
  simpl. intros [= <-]. apply Hpush. by eapply Hall.
Qed.

(** X21. Every output category is well formed: its id is the one derived
    from its name, its name and its options carry no surrounding white space,
    and it has at least one option. *)
Theorem categories_well_formed (data : string) (catalog : Catalog) :
  convert data = Return catalog →
  ∀ c, c ∈ catalogCategories catalog →
    Category.id c = categoryIdOf (Category.name c)
    ∧ trim (Category.name c) = Category.name c
    ∧ Category.options c ≠ []
    ∧ ∀ o, o ∈ Category.options c → trim o = o.
Proof.
  intros (line0 & rows & st & methods & _ & Hheaders & _ & ->)%convert_Return.
  set (P := fun c => Category.id c = categoryIdOf (Category.name c)
                     ∧ trim (Category.name c) = Category.name c
                     ∧ Category.options c ≠ []
                     ∧ ∀ o, o ∈ Category.options c → trim o = o).
  assert (Hpush : ∀ g2 c,
            (Category.id c = categoryIdOf (Category.name c)
             ∧ trim (Category.name c) = Category.name c
             ∧ ∀ o, o ∈ Category.options c → trim o = o) →
            P (Category.mk (Category.id c) (Category.name c)
                 (push (Category.options c) (trim g2)))).
  { intros g2 c (Hid & Hname & Hopts). unfold P, push. simpl.
    split; [done |]. split; [done |]. split; [by destruct (Category.options c) |].
    intros o [Ho | ->%list_elem_of_singleton]%elem_of_app;
      [by apply Hopts | apply trim_idempotent]. }
  assert (Hloop : headerInv st ∧ ∀ a c, objects st !! a = Some c → P c).
  { eapply (forEach_invariant processHeader
              (fun s => headerInv s ∧ ∀ a c, objects s !! a = Some c → P c));
      [| | exact Hheaders]; [| split; [apply headerInv_initial | done]].
    intros s header s' [Hinv Hall] Hstep.
    split; [by eapply processHeader_spec |].
    apply processHeader_cases in Hstep
      as [-> | (g1 & g2 & _ & [(address & c0 & _ & ->) | (_ & _ & ->)])];
      [done | | | done].
    - apply pushOption_objects; [| done].
      intros c (Hid & Hname & _ & Hopts). by apply Hpush.
    - intros a c. unfold pushOption, createCategory, push. simpl.
      rewrite list_lookup_alter. case_decide as Ha.
      + subst a. rewrite list_lookup_middle by done. simpl. intros [= <-].
        apply (Hpush g2 (Category.mk (categoryIdOf (trim g1)) (trim g1) [])).
        simpl. split; [done |]. split; [apply trim_idempotent |].
        by intros o Ho%elem_of_nil.
      + intros [[_ Hc] | [-> _]]%lookup_snoc_Some; [by eapply Hall | done]. }
  destruct Hloop as [Hinv Hall]. simpl.
  rewrite resolveCategories_objects by done.
  intros c (a & Hc)%list_elem_of_lookup_1. by eapply Hall.
Qed.

Lemma categories_well_formed_witness :
  Category.id sampleLevelCategory = categoryIdOf (Category.name sampleLevelCategory)
  ∧ trim (Category.name sampleLevelCategory) = Category.name sampleLevelCategory
  ∧ Category.options sampleLevelCategory ≠ []
  ∧ ∀ o, o ∈ Category.options sampleLevelCategory → trim o = o.
Proof.
  apply (categories_well_formed sampleCsv sampleCatalog).
  - by vm_compute.
  - by left.
Defined.

End CategoryShape.

(** ** When the script throws *)

Section Throwing.
Import JsString JsObject Text Csv CsvSpec CsvFacts Samples.

Lemma not_throwsOn_safe (header : string) : throwsOn header = false → safeHeader header.
Proof.
  unfold throwsOn, safeHeader. intros Hno Hlink g1 g2 Hmatch.
  by rewrite Hlink, Hmatch in Hno.
Qed.

(** No key of the dictionary is the name of an inherited property. *)
Lemma headerLoop_keys (headers : list string) (st : HeaderState) :
  forEach processHeader headers initialHeaderState = Return st →
  headerInv st
  ∧ ∀ k address, categoryMap st !! k = Some address →
      includes objectPrototypeKeys k = false.
Proof.
  apply (forEach_invariant processHeader
           (fun s => headerInv s
                     ∧ ∀ k address, categoryMap s !! k = Some address →
                         includes objectPrototypeKeys k = false)).
  - intros s header s' [Hinv Hkeys] Hstep.
    split; [by eapply processHeader_spec |].
    apply processHeader_cases in Hstep
      as [-> | (g1 & g2 & _ & [(address & c0 & _ & ->) | (_ & Hproto & ->)])];
      [done | exact Hkeys | | done].
    intros k address. unfold pushOption, createCategory. simpl.
    intros [[<- _] | [_ Hk]]%lookup_insert_Some; [done | by eapply Hkeys].
  - split; [apply headerInv_initial | done].
Qed.

Lemma processHeader_throws (st : HeaderState) (header : string) :
  (∀ k address, categoryMap st !! k = Some address →
     includes objectPrototypeKeys k = false) →
  throwsOn header = true → processHeader st header = TypeError.
Proof.
  intros Hkeys. unfold throwsOn, processHeader.
  destruct (isLinkHeader (trim (toLowerCase header))); [done |].
  destruct (matchHeader header) as [[g1 g2] |]; [| done]. intros Hproto.
  change (includes objectPrototypeKeys (categoryIdOf (trim g1)) = true) in Hproto.
  assert (Hget : getProperty (categoryMap st) (categoryIdOf (trim g1)) = Inherited).
  { unfold getProperty.
    destruct (categoryMap st !! categoryIdOf (trim g1)) as [address |] eqn:Hk.
    - apply Hkeys in Hk. congruence.
    - by rewrite Hproto. }
  by rewrite Hget, Hget.
Qed.

Lemma headerLoop_throws (before after : list string) (header : string) :
  throwsOn header = true →
  forEach processHeader (before ++ header :: after) initialHeaderState = TypeError.
Proof.
  intros Hthrows.
  destruct (forEach processHeader (before ++ header :: after) initialHeaderState)
    as [st |] eqn:Hrun; [| done].
  apply forEach_app in Hrun as (st1 & Hbefore & (st2 & Hstep & _)%forEach_cons).
  apply headerLoop_keys in Hbefore as [_ Hkeys].
  by rewrite (processHeader_throws st1 header Hkeys Hthrows) in Hstep.
Qed.

(** X22. The script throws in exactly two situations: the file has no
    non-empty line, or a category header of its first line derives an id that
    is the name of a property every object inherits (such as [constructor]).
    In every other case it completes. *)
Theorem convert_throws_iff (data : string) :
  convert data = TypeError
  ↔ fileLines data = []
    ∨ ∃ line0 rows, fileLines data = line0 :: rows
        ∧ existsb throwsOn (tail (split ";" line0)) = true.
Proof.
  split.
  - intros Hthrow. destruct (fileLines data) as [|line0 rows] eqn:Hlines; [by left |].
    right. exists line0, rows. split; [done |].
    apply not_false_is_true. intros Hnone.
    destruct (convert_completes data line0 rows Hlines) as (catalog & Hrun);
      [| congruence].
    intros header Hin%list_elem_of_In. apply not_throwsOn_safe.
    apply not_true_is_false. intros Hthrows.
    assert (existsb throwsOn (tail (split ";" line0)) = true); [| congruence].
    apply existsb_exists. by exists header.
  - unfold convert. fold (fileLines data).
    intros [-> | (line0 & rows & -> & Hsome)]; [done |].
    apply existsb_exists in Hsome as (header & Hin%list_elem_of_In & Hthrows).
    apply list_elem_of_split in Hin as (before & after & ->).
    by rewrite headerLoop_throws.
Qed.

(** The first line [Method;Constructor - Yes] stops the script. *)
Lemma convert_throws_iff_witness :
  convert "Method;Constructor - Yes" = TypeError.
Proof.
  apply (proj2 (convert_throws_iff "Method;Constructor - Yes")).
  right. exists "Method;Constructor - Yes", []. by split.
Defined.

End Throwing.

(** ** Line endings *)

Section LineEndings.
Import JsString JsObject Text Csv CsvSpec CsvFacts Samples.

Lemma split_line (line rest : string) :
  strHas "010" line = false →
  split "010" (line +:+ String "010" rest) = line :: split "010" rest.
Proof.
  induction line as [|c line IH]; [done |].
  rewrite append_cons. simpl. intros [Hc Hline]%orb_false_iff.
  rewrite Hc. by rewrite IH.
Qed.

Lemma split_unlines_lf (lines : list string) :
  Forall (fun line => strHas "010" line = false) lines →
  split "010" (unlines (String "010" "") lines) = (lines ++ [""])%list.
Proof.
  induction 1 as [|line lines Hline _ IH]; [done |].
  simpl. rewrite append_cons, append_nil_l. by rewrite split_line, IH.
Qed.

Lemma split_unlines_crlf (lines : list string) :
  Forall (fun line => strHas "010" line = false) lines →
  split "010" (unlines (String "013" (String "010" "")) lines)
  = (map (fun line => line +:+ String "013" "") lines ++ [""])%list.
Proof.
  induction 1 as [|line lines Hline _ IH]; [done |].
  simpl. rewrite !append_cons, append_nil_l.
  replace (line +:+ String "013" (String "010" (unlines (String "013" (String "010" "")) lines)))
    with ((line +:+ String "013" "") +:+ String "010" (unlines (String "013" (String "010" "")) lines))
    by (by rewrite append_assoc).
  rewrite split_line, IH; [done |].
  by rewrite strHas_append, Hline.
Qed.

Lemma trimEnd_append_space (c : ascii) (s : string) :
  isWhiteSpace c = true → trimEnd (s +:+ String c "") = trimEnd s.
Proof.
  intros Hc. induction s as [|d s IH].
  - simpl. by rewrite Hc.
  - rewrite append_cons.
    change (trimEnd (String d (s +:+ String c ""))) with
      (match trimEnd (s +:+ String c "") with
       | EmptyString => if isWhiteSpace d then EmptyString else String d EmptyString
       | t => String d t
       end).
    by rewrite IH.
Qed.

Lemma trimStart_blank (s : string) :
  strForall isWhiteSpace s = true → trimStart s = "".
Proof.
  induction s as [|d s IH]; simpl; [done |].
  intros [Hd Hs]%andb_true_iff. rewrite Hd. by apply IH.
Qed.

Lemma trimStart_append_space (c : ascii) (s : string) :
  isWhiteSpace c = true →
  trimStart (s +:+ String c "")
  = if strForall isWhiteSpace s then "" else trimStart s +:+ String c "".
Proof.
  intros Hc. induction s as [|d s IH].
  - simpl. by rewrite Hc.
  - rewrite append_cons. simpl. destruct (isWhiteSpace d); [by rewrite IH | done].
Qed.

(** A trailing white-space unit is trimmed away. *)
Lemma trim_append_space (c : ascii) (s : string) :
  isWhiteSpace c = true → trim (s +:+ String c "") = trim s.
Proof.
  intros Hc. unfold trim. rewrite trimStart_append_space by done.
  destruct (strForall isWhiteSpace s) eqn:Hs.
  - by rewrite trimStart_blank.
  - by apply trimEnd_append_space.
Qed.

(** X23. Windows line endings make no difference: a file whose lines end in
    CR LF converts exactly like the same lines ending in LF. *)
Theorem crlf_converts_like_lf (lines : list string) :
  Forall (fun line => strHas "010" line = false) lines →
  convert (unlines (String "013" (String "010" "")) lines)
  = convert (unlines (String "010" "") lines).
Proof.
  intros Hlines. unfold convert.
  rewrite split_unlines_crlf, split_unlines_lf by done.
  rewrite !map_app, map_map.
  replace (map (fun line => trim (line +:+ String "013" "")) lines) with (map trim lines);
    [done |].
  apply map_ext. intros line. by rewrite trim_append_space.
Qed.

Lemma crlf_converts_like_lf_witness :
  convert (unlines (String "013" (String "010" ""))
             ["Method;SEM Level - Individual"; "Photovoice;yes"])
  = convert (unlines (String "010" "")
               ["Method;SEM Level - Individual"; "Photovoice;yes"]).
Proof.
  apply (crlf_converts_like_lf ["Method;SEM Level - Individual"; "Photovoice;yes"]).
  by repeat constructor.
Defined.

End LineEndings.

(** ** Links that are already normalized *)

Section NormalizedLinks.
Import JsString JsObject Text Csv CsvSpec CsvFacts Samples.

Lemma protocol_not_www (url : string) :
  startsWith url "http://" = true ∨ startsWith url "https://" = true →
  startsWith url "www." = false ∧ url ≠ "" ∧ url ≠ "null" ∧ trim url ≠ "".
Proof.
  intros Hstart. destruct url as [|c url]; [by destruct Hstart |].
  assert (c = "h"%char) as ->.
  { destruct Hstart as [H | H]; rewrite startsWith_cons in H;
      apply andb_true_iff in H as [Hc _]; by apply Ascii.eqb_eq in Hc. }
  split; [done |]. split; [done |]. split; [done |].
  unfold trim. change (trimStart (String "h" url)) with (String "h" url).
  by apply trimEnd_nonblank.
Qed.

(** X24. A stored link is a fixed point of the normalization: feeding the URL
    written for a link cell back into a link cell stores the same URL. *)
Theorem normalized_link_is_fixed_point (value url : string) :
  normalizeLink value = Some url → normalizeLink url = Some url.
Proof.
  intros Hstart%normalizeLink_protocol_out.
  destruct (protocol_not_www url Hstart) as (Hwww & Hne & Hnull & Htrim).
  unfold normalizeLink.
  apply String.eqb_neq in Hne, Hnull, Htrim. rewrite Hne, Hnull, Htrim, Hwww. simpl.
  rewrite orb_false_r. by destruct Hstart as [-> | ->]; rewrite ?orb_true_r.
Qed.

Lemma normalized_link_is_fixed_point_witness :
  normalizeLink "https://example.org/guide" = Some "https://example.org/guide".
Proof.
  apply (normalized_link_is_fixed_point "example.org/guide").
  reflexivity.
Defined.

End NormalizedLinks.
